(** * A toy in-memory bank ledger (source.c): model and verified properties

    The C program keeps heap-allocated [BankAccount] structs that are
    reached through pointers, a caller-managed array of such pointers
    (the registry), and [double] amounts.  The model below follows that
    layout:

    - a [double] is an IEEE 754 binary64 value, taken from the Standard
      Library's executable specification [SpecFloat] (precision 53,
      emax 1024, round to nearest even);
    - an [int] is a [Z] (the program only compares account numbers and
      counts up to [MAX_TRANSACTIONS], so no wrap-around can occur);
    - the heap is a finite map from addresses to structs; a pointer is
      [NULL] or an address, and two pointers may alias;
    - every function is a computation in a state-and-failure monad over
      the heap, where failure stands for C's undefined behaviour (null or
      dangling dereference, out-of-bounds array access). *)

From Stdlib Require Import ZArith QArith Ascii String Lia SpecFloat.
From stdpp Require Import gmap list.

Local Open Scope Z_scope.

(** ** Doubles *)

Module Double.

Definition prec : Z := 53.
Definition emax : Z := 1024.

Definition double : Type := spec_float.

Definition zero : double := S754_zero false.
Definition nan : double := S754_nan.
Definition add : double → double → double := SFadd prec emax.
Definition sub : double → double → double := SFsub prec emax.
(** The C comparisons [x <= y] and [x < y]: false as soon as one side
    is a NaN. *)
Definition leb : double → double → bool := SFleb.
Definition ltb : double → double → bool := SFltb.

(** Representable values only: canonical mantissa and bounded exponent. *)
Definition valid (x : double) : Prop := valid_binary prec emax x = true.

Definition is_finite (x : double) : bool :=
  match x with S754_zero _ | S754_finite _ _ _ => true | _ => false end.

(** The double nearest to an integer, as a C literal such as [500.0]. *)
Definition of_Z (z : Z) : double := binary_normalize prec emax z 0 false.

(** The exact rational value of a finite double (0 for the others, which
    have none). *)
Definition to_Q (x : double) : Q :=
  match x with
  | S754_finite s m e =>
      Qmult (inject_Z (cond_Zopp s (Zpos m))) (Qpower (2 # 1) e)
  | _ => 0%Q
  end.

End Double.

Abbreviation double := Double.double.

(** ** C strings and [strncpy] *)

Definition NUL : ascii := Ascii.zero.

Definition is_NUL (c : ascii) : bool := Ascii.eqb c NUL.

(** A [const char*] argument is the list of characters found at the
    address; the string ends at the first NUL, or at the end of the list
    (where the terminator sits). *)
Fixpoint strlen (s : list ascii) : nat :=
  match s with
  | [] => O
  | c :: s' => if is_NUL c then O else S (strlen s')
  end.

(** [strncpy dst src n] writes exactly [n] bytes: the characters of [src]
    up to its terminator, at most [n] of them, then NUL padding.  When
    [src] has [n] characters or more no terminator is written. *)
Fixpoint strncpy (src : list ascii) (n : nat) : list ascii :=
  match n with
  | O => []
  | S n' =>
      match src with
      | [] => NUL :: strncpy [] n'
      | c :: src' =>
          if is_NUL c then NUL :: strncpy [] n' else c :: strncpy src' n'
      end
  end.

Definition cstr (s : string) : list ascii := list_ascii_of_string s.

(** Characters other than NUL stored in a buffer. *)
Definition visible (buf : list ascii) : nat :=
  length (filter (λ c, is_NUL c = false) buf).

(** The characters of a C string, terminator excluded. *)
Definition chars (s : list ascii) : list ascii := take (strlen s) s.

(** ** Data model *)

Definition MAX_TRANSACTIONS : Z := 10.
Definition NAME_LENGTH : Z := 5.

Inductive TransactionType := DEPOSIT | WITHDRAWAL.

Record Transaction := mkTransaction {
  type : TransactionType;
  amount : double;
  description : list ascii   (* char[10] *)
}.

(** [transactions] is the array [Transaction transactions[MAX_TRANSACTIONS]];
    a slot that was never written since [malloc] is [None]. *)
Record BankAccount := mkBankAccount {
  accountNumber : Z;
  holderName : list ascii;   (* char[NAME_LENGTH] *)
  balance : double;
  transactions : list (option Transaction);
  transactionCount : Z
}.

Definition set_balance (b : double) (a : BankAccount) : BankAccount :=
  mkBankAccount (accountNumber a) (holderName a) b
                (transactions a) (transactionCount a).

Inductive ptr := NULL | Addr (l : positive).

Global Instance TransactionType_eq_dec : EqDecision TransactionType.
Proof. solve_decision. Defined.

Global Instance ptr_eq_dec : EqDecision ptr.
Proof. solve_decision. Defined.

Definition is_null (p : ptr) : bool :=
  match p with NULL => true | Addr _ => false end.

Abbreviation heap := (gmap positive BankAccount).

(** ** The monad: heap state, [None] for undefined behaviour *)

Definition M (A : Type) : Type := heap → option (A * heap).

Definition ret {A} (x : A) : M A := λ h, Some (x, h).

Definition bind {A B} (m : M A) (f : A → M B) : M B :=
  λ h, match m h with
       | Some (x, h') => f x h'
       | None => None
       end.

Definition ub {A} : M A := λ _, None.

Declare Scope m_scope.
Delimit Scope m_scope with M.
Notation "'do' x <- m ; f" := (bind m (λ x, f))
  (at level 10, x name, m at level 100, f at level 200,
   format "'[v' 'do'  x  <-  m ; '/' f ']'") : m_scope.
Notation "m ;;; f" := (bind m (λ _, f))
  (at level 100, f at level 200, right associativity) : m_scope.
Local Open Scope m_scope.

(** [*p] as an rvalue. *)
Definition load (p : ptr) : M BankAccount :=
  λ h, match p with
       | NULL => None
       | Addr l => match h !! l with
                   | Some a => Some (a, h)
                   | None => None
                   end
       end.

(** [*p = a]. *)
Definition store (p : ptr) (a : BankAccount) : M unit :=
  λ h, match p with
       | NULL => None
       | Addr l => match h !! l with
                   | Some _ => Some (tt, <[l := a]> h)
                   | None => None
                   end
       end.

(** ** The functions of source.c *)

(** [malloc] either fails or returns a fresh block; [malloc_ok] is the
    outcome.  The block is entered in the heap once the four scalar
    fields have been assigned; the [transactions] array is left as
    [malloc] returned it, every slot unwritten. *)
Definition createAccount (malloc_ok : bool) (accountNumber : Z)
    (holderName : list ascii) : M ptr :=
  λ h,
    if negb malloc_ok then Some (NULL, h)
    else
      let l := fresh (dom h) in
      Some (Addr l,
            <[l := mkBankAccount accountNumber
                     (strncpy holderName (Z.to_nat NAME_LENGTH))
                     Double.zero
                     (replicate (Z.to_nat MAX_TRANSACTIONS) None)
                     0]> h).

(** [&account->transactions[account->transactionCount++]] followed by the
    three field writes.  The guard only excludes counts of
    [MAX_TRANSACTIONS] and above; an index outside the array is undefined
    behaviour. *)
Definition addTransaction (account : ptr) (type : TransactionType)
    (amount : double) (description : list ascii) : M unit :=
  do a <- load account;
  if MAX_TRANSACTIONS <=? transactionCount a then ret tt
  else
    let i := transactionCount a in
    if (0 <=? i) && (Z.to_nat i <? length (transactions a))%nat then
      store account
        (mkBankAccount (accountNumber a) (holderName a) (balance a)
           (<[Z.to_nat i :=
                Some (mkTransaction type amount (strncpy description 10))]>
              (transactions a))
           (i + 1))
    else ub.

Definition deposit (account : ptr) (amount : double)
    (description : list ascii) : M Z :=
  if Double.leb amount Double.zero then ret (-1)
  else
    do a <- load account;
    store account (set_balance (Double.add (balance a) amount) a) ;;;
    addTransaction account DEPOSIT amount description ;;;
    ret 0.

Definition withdraw (account : ptr) (amount : double)
    (description : list ascii) : M Z :=
  if Double.leb amount Double.zero then ret (-1)
  else
    do a <- load account;
    if Double.ltb (balance a) amount then ret (-1)
    else
      store account (set_balance (Double.sub (balance a) amount) a) ;;;
      addTransaction account WITHDRAWAL amount description ;;;
      ret 0.

(** The loop [for (i = 0; i < totalAccounts; i++)], with [n] iterations
    left; [accounts] is the array of pointers the caller passes, read at
    index [i] (undefined behaviour past its end). *)
Fixpoint findAccount_loop (accounts : list ptr) (n : nat) (i : nat)
    (accountNumber' : Z) : M ptr :=
  match n with
  | O => ret NULL
  | S n' =>
      match accounts !! i with
      | None => ub
      | Some p =>
          do a <- load p;
          if accountNumber a =? accountNumber' then ret p
          else findAccount_loop accounts n' (S i) accountNumber'
      end
  end.

Definition findAccount (accounts : list ptr) (totalAccounts : Z)
    (accountNumber : Z) : M ptr :=
  findAccount_loop accounts (Z.to_nat totalAccounts) O accountNumber.

Definition transfer (accounts : list ptr) (totalAccounts : Z)
    (fromAccNum toAccNum : Z) (amount : double) : M unit :=
  do fromAccount <- findAccount accounts totalAccounts fromAccNum;
  do toAccount <- findAccount accounts totalAccounts toAccNum;
  if is_null fromAccount || is_null toAccount then ret tt
  else
    do r <- withdraw fromAccount amount (cstr "Transfer to");
    if r =? 0 then
      deposit toAccount amount (cstr "Transfer from") ;;; ret tt
    else ret tt.

(** [free]. *)
Definition free (p : ptr) : M unit :=
  λ h, match p with
       | NULL => Some (tt, h)
       | Addr l => match h !! l with
                   | Some _ => Some (tt, delete l h)
                   | None => None
                   end
       end.

(** ** Specification-level definitions *)

(** The transactions an account has on record: the slots below
    [transactionCount], in index order. *)
Definition recorded (a : BankAccount) : list Transaction :=
  omap id (take (Z.to_nat (transactionCount a)) (transactions a)).

(** What one recorded transaction does to a balance, in double
    arithmetic. *)
Definition apply_txn (b : double) (t : Transaction) : double :=
  match type t with
  | DEPOSIT => Double.add b (amount t)
  | WITHDRAWAL => Double.sub b (amount t)
  end.

(** The net of a log, accumulated left to right from 0.0 with one
    rounding per transaction, as [deposit] and [withdraw] compute it. *)
Definition net (log : list Transaction) : double :=
  foldl apply_txn Double.zero log.

Definition amounts_of (k : TransactionType) (log : list Transaction)
    : list double :=
  amount <$> filter (λ t, type t = k) log.

(** sum(deposit amounts) - sum(withdrawal amounts), each sum accumulated
    in double arithmetic. *)
Definition sum_double (xs : list double) : double :=
  foldl Double.add Double.zero xs.

Definition net_of_sums (log : list Transaction) : double :=
  Double.sub (sum_double (amounts_of DEPOSIT log))
             (sum_double (amounts_of WITHDRAWAL log)).

(** The same difference of sums over the rationals, without rounding. *)
Definition sum_Q (xs : list double) : Q :=
  foldl (λ q x, Qplus q (Double.to_Q x)) 0%Q xs.

Definition exact_net_of_sums (log : list Transaction) : Q :=
  Qminus (sum_Q (amounts_of DEPOSIT log))
         (sum_Q (amounts_of WITHDRAWAL log)).

(** The bounded log of an account is in order: the count is within the
    array, which has [MAX_TRANSACTIONS] slots, and exactly the slots below
    the count have been written. *)
Record log_inv (a : BankAccount) : Prop := mk_log_inv {
  log_count_range : 0 ≤ transactionCount a ≤ MAX_TRANSACTIONS;
  log_array_size : length (transactions a) = Z.to_nat MAX_TRANSACTIONS;
  log_written :
    ∀ i : nat, (∃ t, transactions a !! i = Some (Some t))
               ↔ Z.of_nat i < transactionCount a
}.

(** Calls on one account, and their run in program order; the result
    codes are collected. *)
Inductive account_op :=
  | Deposit (amount : double) (description : list ascii)
  | Withdraw (amount : double) (description : list ascii).

Definition run_account_op (account : ptr) (o : account_op) : M Z :=
  match o with
  | Deposit amount description => deposit account amount description
  | Withdraw amount description => withdraw account amount description
  end.

Fixpoint run_account_ops (account : ptr) (os : list account_op)
    : M (list Z) :=
  match os with
  | [] => ret []
  | o :: os' =>
      do r <- run_account_op account o;
      do rs <- run_account_ops account os';
      ret (r :: rs)
  end.

(** The record a successful call leaves in the log. *)
Definition txn_of_op (o : account_op) : Transaction :=
  match o with
  | Deposit amount description =>
      mkTransaction DEPOSIT amount (strncpy description 10)
  | Withdraw amount description =>
      mkTransaction WITHDRAWAL amount (strncpy description 10)
  end.

(** Calls of the whole interface, on any accounts and registries. *)
Inductive op :=
  | OpDeposit (account : ptr) (amount : double) (description : list ascii)
  | OpWithdraw (account : ptr) (amount : double) (description : list ascii)
  | OpTransfer (accounts : list ptr) (totalAccounts : Z)
      (fromAccNum toAccNum : Z) (amount : double).

Definition run_op (o : op) : M unit :=
  match o with
  | OpDeposit account amount description =>
      deposit account amount description ;;; ret tt
  | OpWithdraw account amount description =>
      withdraw account amount description ;;; ret tt
  | OpTransfer accounts totalAccounts fromAccNum toAccNum amount =>
      transfer accounts totalAccounts fromAccNum toAccNum amount
  end.

Fixpoint run_ops (os : list op) : M unit :=
  match os with
  | [] => ret tt
  | o :: os' => run_op o ;;; run_ops os'
  end.

(** A registry the lookup can scan: [totalAccounts] does not exceed the
    array, and each of the first [totalAccounts] pointers is live. *)
Definition registry_ok (h : heap) (accounts : list ptr)
    (totalAccounts : Z) : Prop :=
  (Z.to_nat totalAccounts ≤ length accounts)%nat ∧
  ∀ (i : nat) p, (i < Z.to_nat totalAccounts)%nat → accounts !! i = Some p →
    ∃ l a, p = Addr l ∧ h !! l = Some a.

(** The account number read through the [i]-th pointer of the registry. *)
Definition number_at (h : heap) (accounts : list ptr) (i : nat)
    : option Z :=
  match accounts !! i with
  | Some (Addr l) => accountNumber <$> h !! l
  | _ => None
  end.

(** [accountNumber] is absent from the scanned part of the registry. *)
Definition absent (h : heap) (accounts : list ptr) (totalAccounts : Z)
    (accountNumber : Z) : Prop :=
  ∀ i : nat, (i < Z.to_nat totalAccounts)%nat →
    number_at h accounts i ≠ Some accountNumber.

(** The struct after [addTransaction], when the index is inside the
    array. *)
Definition append_txn (type : TransactionType) (amount : double)
    (description : list ascii) (a : BankAccount) : BankAccount :=
  if MAX_TRANSACTIONS <=? transactionCount a then a
  else
    mkBankAccount (accountNumber a) (holderName a) (balance a)
      (<[Z.to_nat (transactionCount a) :=
           Some (mkTransaction type amount (strncpy description 10))]>
         (transactions a))
      (transactionCount a + 1).

(** The struct after a [deposit], resp. [withdraw], that passed
    validation. *)
Definition deposited (amount : double) (description : list ascii)
    (a : BankAccount) : BankAccount :=
  append_txn DEPOSIT amount description
    (set_balance (Double.add (balance a) amount) a).

Definition withdrawn (amount : double) (description : list ascii)
    (a : BankAccount) : BankAccount :=
  append_txn WITHDRAWAL amount description
    (set_balance (Double.sub (balance a) amount) a).

(** The count is past the guard of [addTransaction] or indexes the
    array: the write cannot fall outside [transactions]. *)
Definition write_ok (a : BankAccount) : Prop :=
  transactionCount a < MAX_TRANSACTIONS →
  0 ≤ transactionCount a ∧
  (Z.to_nat (transactionCount a) < length (transactions a))%nat.

(** The struct is laid out as declared: the array has its
    [MAX_TRANSACTIONS] slots and the count is not negative. *)
Definition in_bounds (a : BankAccount) : Prop :=
  0 ≤ transactionCount a ∧
  length (transactions a) = Z.to_nat MAX_TRANSACTIONS.

(** A heap with one account, Bob's after the first two calls of the demo
    (balance 800.0, two records). *)
Definition bob : BankAccount :=
  mkBankAccount 1002 (strncpy (cstr "Bob") 5) (Double.of_Z 800)
    ([Some (mkTransaction DEPOSIT (Double.of_Z 1000) (strncpy (cstr "Initial") 10));
      Some (mkTransaction WITHDRAWAL (Double.of_Z 200) (strncpy (cstr "withdrawal") 10))]
       ++ replicate 8 None)
    2.

Definition bob_heap : heap := {[ 2%positive := bob ]}.

(** An account whose log is full: ten deposits of 1.0 after creation. *)
Definition full_account : BankAccount :=
  mkBankAccount 7 (strncpy (cstr "Eve") 5) (Double.of_Z 10)
    (replicate 10 (Some (mkTransaction DEPOSIT (Double.of_Z 1) (strncpy (cstr "tick") 10))))
    10.

Definition full_heap : heap := {[ 1%positive := full_account ]}.

(** A registry with a duplicated identifier: the accounts at addresses 1
    and 3 both carry number 42; the array lists address 2 first, then 3,
    then 1. *)
Definition plain_account (n : Z) (b : Z) : BankAccount :=
  mkBankAccount n (strncpy (cstr "Dup") 5) (Double.of_Z b)
    (replicate 10 None) 0.

Definition twin_heap : heap :=
  {[ 1%positive := plain_account 42 10;
     2%positive := plain_account 17 20;
     3%positive := plain_account 42 30 ]}.

Definition twin_registry : list ptr := [Addr 2; Addr 3; Addr 1].

(** Four successful calls on a fresh account: deposit 2^53, deposit 1.0,
    withdraw 2^53, deposit 1.0.  The second deposit is absorbed by
    rounding (2^53 + 1 is not a double). *)
Definition absorbed_ops : list account_op :=
  [Deposit (Double.of_Z (2 ^ 53)) (cstr "big");
   Deposit (Double.of_Z 1) (cstr "one");
   Withdraw (Double.of_Z (2 ^ 53)) (cstr "big");
   Deposit (Double.of_Z 1) (cstr "one")].

(** The struct [createAccount] leaves at the address it returns. *)
Definition fresh_account (accountNumber : Z) (holderName : list ascii)
    : BankAccount :=
  mkBankAccount accountNumber (strncpy holderName 5) Double.zero
    (replicate 10 None) 0.

(** From [h] to [h'] no ordered log lost or changed a record: each
    account stays where it is, with its log still in order and its old
    records a prefix of the new ones. *)
Definition logs_extended (h h' : heap) : Prop :=
  ∀ l a, h !! l = Some a → log_inv a →
    ∃ a', h' !! l = Some a' ∧ log_inv a' ∧
          recorded a `prefix_of` recorded a' ∧
          transactionCount a ≤ transactionCount a'.

(** A mixed run from the heap holding Alice's fresh account: a deposit,
    a rejected withdrawal, a transfer to herself and a withdrawal. *)
Definition mixed_ops : list op :=
  [OpDeposit (Addr 1) (Double.of_Z 500) (cstr "Initial");
   OpWithdraw (Addr 1) (Double.of_Z 900) (cstr "too much");
   OpTransfer [Addr 1] 1 1001 1001 (Double.of_Z 150);
   OpWithdraw (Addr 1) (Double.of_Z 20) (cstr "shopping")].

Definition alice_heap : heap :=
  {[ 1%positive := fresh_account 1001 (cstr "Alice") ]}.

Definition heap_after (os : list op) (h : heap) : heap :=
  match run_ops os h with
  | Some (_, h') => h'
  | None => h
  end.

(** Conditions under which a run meets no undefined behaviour: every
    struct of the heap is laid out as declared, and each call goes
    through a live pointer, resp. a registry the lookup can scan. *)
Definition heap_ok (h : heap) : Prop :=
  ∀ l a, h !! l = Some a → in_bounds a.

Definition live (h : heap) (p : ptr) : Prop :=
  ∃ l, p = Addr l ∧ is_Some (h !! l).

Definition op_ok (h : heap) (o : op) : Prop :=
  match o with
  | OpDeposit account _ _ | OpWithdraw account _ _ => live h account
  | OpTransfer accounts totalAccounts _ _ _ =>
      registry_ok h accounts totalAccounts
  end.

(** The two heaps hold accounts at the same addresses. *)
Definition same_accounts (h h' : heap) : Prop :=
  ∀ l, is_Some (h' !! l) ↔ is_Some (h !! l).

(** ** The rest of source.c: reporting stubs and the driver *)

(** Both reporting functions have an empty body: they return without
    reading the struct they are given. *)
Definition printAccountDetails (account : ptr) : M unit := ret tt.

Definition printTransactionHistory (account : ptr) : M unit := ret tt.

(** [for (i = 0; i < totalAccounts; i++) body(accounts[i])] over the local
    array of the driver. *)
Fixpoint for_each (body : ptr → M unit) (accounts : list ptr) : M unit :=
  match accounts with
  | [] => ret tt
  | p :: accounts' => body p ;;; for_each body accounts'
  end.

(** [simulateOperations] in full, with the outcomes of its three [malloc]
    calls as parameters.  The results of [createAccount] are used
    unchecked, as in the source. *)
Definition simulateOperations (m0 m1 m2 : bool) : M unit :=
  let totalAccounts := 3 in
  do a0 <- createAccount m0 1001 (cstr "Alice");
  do a1 <- createAccount m1 1002 (cstr "Bob");
  do a2 <- createAccount m2 1003 (cstr "Charlie");
  let accounts := [a0; a1; a2] in
  deposit a0 (Double.of_Z 500) (cstr "Initial") ;;;
  deposit a1 (Double.of_Z 1000) (cstr "Initial") ;;;
  deposit a2 (Double.of_Z 750) (cstr "Initial") ;;;
  withdraw a1 (Double.of_Z 200) (cstr "withdrawal") ;;;
  withdraw a2 (Double.of_Z 50) (cstr "shopping") ;;;
  transfer accounts totalAccounts 1001 1003 (Double.of_Z 150) ;;;
  for_each (λ p, printAccountDetails p ;;; printTransactionHistory p)
    accounts ;;;
  for_each free accounts.

(** [main], with the outcomes of the three [malloc] calls its callee
    makes. *)
Definition main (m0 m1 m2 : bool) : M Z :=
  simulateOperations m0 m1 m2 ;;; ret 0.

(** The records of the calls that returned 0, in call order. *)
Fixpoint accepted (os : list account_op) (rs : list Z) : list Transaction :=
  match os, rs with
  | o :: os', r :: rs' =>
      if r =? 0 then txn_of_op o :: accepted os' rs' else accepted os' rs'
  | _, _ => []
  end.

(** The state of an account after the accepted calls [pre]: the balance
    is their net, the log holds the first ten of them. *)
Definition ledger_of (pre : list Transaction) (a : BankAccount) : Prop :=
  in_bounds a ∧
  balance a = net pre ∧
  recorded a = take 10 pre ∧
  transactionCount a = Z.of_nat (length pre `min` 10).

(** Account number and holder name of the account at an address, if
    any. *)
Definition identity_at (h : heap) (l : positive)
    : option (Z * list ascii) :=
  (λ a, (accountNumber a, holderName a)) <$> h !! l.

(** Twelve deposits of 1.0, two more than the log can hold. *)
Definition twelve_deposits : list account_op :=
  replicate 12 (Deposit (Double.of_Z 1) (cstr "tick")).

(** An account whose balance has become a NaN. *)
Definition poisoned : BankAccount :=
  mkBankAccount 9 (strncpy (cstr "Nan") 5) Double.nan (replicate 10 None) 0.

Definition poisoned_heap : heap := {[ 4%positive := poisoned ]}.

(** A registry whose second entry is a null pointer and which is shorter
    than the count passed with it. *)
Definition holed_registry : list ptr := [Addr 2; NULL].

(** The scan went past the entries below [k]: each of them points to a
    live account whose number is not the one looked for. *)
Definition scanned_past (h : heap) (accounts : list ptr) (num : Z)
    (k : nat) : Prop :=
  ∀ j : nat, (j < k)%nat →
    ∃ lj aj, accounts !! j = Some (Addr lj) ∧ h !! lj = Some aj ∧
             accountNumber aj ≠ num.

(** Entry [k] cannot be read through: it lies past the end of the array,
    is a null pointer, or points to no live account. *)
Definition dead_entry (h : heap) (accounts : list ptr) (k : nat) : Prop :=
  match accounts !! k with
  | None | Some NULL => True
  | Some (Addr l) => h !! l = None
  end.

(** The two heaps hold accounts at the same addresses, with the same
    numbers and holder names. *)
Definition same_identity (h h' : heap) : Prop :=
  ∀ l, identity_at h' l = identity_at h l.

(** The heap [h] with three more accounts, at [l0], [l1] and [l2]. *)
Definition with_three (h : heap) (l0 l1 l2 : positive)
    (x0 x1 x2 : BankAccount) : heap :=
  <[l2 := x2]> (<[l1 := x1]> (<[l0 := x0]> h)).

(** The body of [simulateOperations] after the three allocations, on the
    pointers they returned. *)
Definition scenario (a0 a1 a2 : ptr) : M unit :=
  let totalAccounts := 3 in
  let accounts := [a0; a1; a2] in
  deposit a0 (Double.of_Z 500) (cstr "Initial") ;;;
  deposit a1 (Double.of_Z 1000) (cstr "Initial") ;;;
  deposit a2 (Double.of_Z 750) (cstr "Initial") ;;;
  withdraw a1 (Double.of_Z 200) (cstr "withdrawal") ;;;
  withdraw a2 (Double.of_Z 50) (cstr "shopping") ;;;
  transfer accounts totalAccounts 1001 1003 (Double.of_Z 150) ;;;
  for_each (λ p, printAccountDetails p ;;; printTransactionHistory p)
    accounts ;;;
  for_each free accounts.

(** The heap after the three allocations of the driver, started from an
    empty heap, and the calls the driver then makes. *)
Definition demo_heap : heap :=
  with_three ∅ 1 2 3
    (fresh_account 1001 (cstr "Alice"))
    (fresh_account 1002 (cstr "Bob"))
    (fresh_account 1003 (cstr "Charlie")).

Definition demo_ops : list op :=
  [OpDeposit (Addr 1) (Double.of_Z 500) (cstr "Initial");
   OpDeposit (Addr 2) (Double.of_Z 1000) (cstr "Initial");
   OpDeposit (Addr 3) (Double.of_Z 750) (cstr "Initial");
   OpWithdraw (Addr 2) (Double.of_Z 200) (cstr "withdrawal");
   OpWithdraw (Addr 3) (Double.of_Z 50) (cstr "shopping");
   OpTransfer [Addr 1; Addr 2; Addr 3] 3 1001 1003 (Double.of_Z 150)].

(** Ten deposits that fill a log: 2^54, then nine times 1.0, each of
    which rounding absorbs (consecutive doubles are 4 apart at 2^54). *)
Definition saturating_ops : list account_op :=
  Deposit (Double.of_Z (2 ^ 54)) (cstr "big")
    :: replicate 9 (Deposit (Double.of_Z 1) (cstr "tick")).

(** Alice's account after [saturating_ops]: a full log, balance 2^54. *)
Definition saturated_account : BankAccount :=
  mkBankAccount 1001 (strncpy (cstr "Alice") 5) (Double.of_Z (2 ^ 54))
    (Some <$> (txn_of_op <$> saturating_ops))
    10.

Definition saturated_heap : heap := {[ 1%positive := saturated_account ]}.

(** * Properties *)

(** The three allocations of the driver, from an empty heap, give
    [demo_heap]; its calls then leave balances 350, 800 and 850. *)
Example demo_balances :
  (do a0 <- createAccount true 1001 (cstr "Alice");
   do a1 <- createAccount true 1002 (cstr "Bob");
   do a2 <- createAccount true 1003 (cstr "Charlie");
   ret [a0; a1; a2]) ∅ = Some ([Addr 1; Addr 2; Addr 3], demo_heap) ∧
  balance <$> heap_after demo_ops demo_heap !! 1%positive
    = Some (Double.of_Z 350) ∧
  balance <$> heap_after demo_ops demo_heap !! 2%positive
    = Some (Double.of_Z 800) ∧
  balance <$> heap_after demo_ops demo_heap !! 3%positive
    = Some (Double.of_Z 850).
Proof. repeat split; vm_compute; reflexivity. Qed.

(** ** Facts about binary64 comparison and subtraction *)

Section DoubleFacts.

Import Double.

Lemma compare_antisym (x y : double) c :
  SFcompare x y = Some c → SFcompare y x = Some (CompOpp c).
Proof.
  destruct x as [sx|sx| |sx mx ex], y as [sy|sy| |sy my ey]; cbn;
    try discriminate;
    try (destruct sx; intros [= <-]; reflexivity);
    try (destruct sy; intros [= <-]; reflexivity);
    try (destruct sx, sy; intros [= <-]; reflexivity).
  destruct sx, sy; intros [= <-]; try reflexivity; f_equal;
    rewrite (Z.compare_antisym ex ey);
    destruct (ex ?= ey); cbn; try reflexivity;
    change (Pos.compare_cont Eq my mx) with (Pos.compare my mx);
    change (Pos.compare_cont Eq mx my) with (Pos.compare mx my);
    rewrite (Pos.compare_antisym mx my); by destruct (mx ?= my)%positive.
Qed.

(** [0 < x] excludes [x <= 0]. *)
Lemma positive_not_leb_zero (x : double) :
  ltb zero x = true → leb x zero = false.
Proof.
  unfold ltb, leb, SFltb, SFleb.
  destruct (SFcompare zero x) as [[]|] eqn:E; try discriminate.
  intros _. by rewrite (compare_antisym _ _ _ E).
Qed.

(** [y <= x] excludes [x < y]. *)
Lemma leb_not_ltb (x y : double) : leb y x = true → ltb x y = false.
Proof.
  unfold ltb, leb, SFltb, SFleb.
  destruct (SFcompare y x) as [[]|] eqn:E; try discriminate;
    intros _; by rewrite (compare_antisym _ _ _ E).
Qed.

Lemma digits2_pos_bounds (m : positive) :
  2 ^ (Zpos (digits2_pos m) - 1) ≤ Zpos m < 2 ^ Zpos (digits2_pos m).
Proof.
  induction m as [m IH|m IH|]; cbn [digits2_pos].
  - rewrite Pos2Z.inj_succ.
    replace (Z.succ (Zpos (digits2_pos m)) - 1)
      with (Z.succ (Zpos (digits2_pos m) - 1)) by lia.
    rewrite !Z.pow_succ_r by lia. lia.
  - rewrite Pos2Z.inj_succ.
    replace (Z.succ (Zpos (digits2_pos m)) - 1)
      with (Z.succ (Zpos (digits2_pos m) - 1)) by lia.
    rewrite !Z.pow_succ_r by lia. lia.
  - cbn. lia.
Qed.

(** A representable finite double has at most 53 mantissa bits, and
    exactly 53 unless its exponent is the least one. *)
Lemma valid_finite s m e :
  valid (S754_finite s m e) →
  -1074 ≤ e ∧ Zpos m < 2 ^ 53 ∧ (-1074 < e → 2 ^ 52 ≤ Zpos m).
Proof.
  unfold valid, valid_binary, bounded, canonical_mantissa, fexp, SpecFloat.emin,
    prec, emax.
  intros H. apply andb_true_iff in H as [H _]. apply Z.eqb_eq in H.
  pose proof (digits2_pos_bounds m) as [Hlo Hhi].
  assert (Hd : Zpos (digits2_pos m) ≤ 53) by lia.
  repeat split; [lia| |].
  - eapply Z.lt_le_trans; [exact Hhi|]. apply Z.pow_le_mono_r; lia.
  - intros He. assert (Zpos (digits2_pos m) = 53) as Hd' by lia.
    by rewrite Hd' in Hlo.
Qed.

Lemma shl_align_value m e e' :
  e' ≤ e → Zpos (fst (shl_align m e e')) = Zpos m * 2 ^ (e - e').
Proof.
  intros He. unfold shl_align. destruct (e' - e) as [|d|d] eqn:Hd; cbn [fst].
  - replace (e - e') with 0 by lia. lia.
  - lia.
  - replace (e - e') with (Zpos d) by lia.
    change (Pos.iter xO m d) with (shift_pos d m).
    rewrite shift_pos_correct. cbn [Z.pow]. lia.
Qed.

Lemma shr_1_nonneg mrs : 0 ≤ shr_m mrs → 0 ≤ shr_m (shr_1 mrs).
Proof. destruct mrs as [[|[p|p|]|p] r s]; cbn; lia. Qed.

Lemma iter_shr_1_nonneg p mrs :
  0 ≤ shr_m mrs → 0 ≤ shr_m (SpecFloat.iter_pos shr_1 p mrs).
Proof.
  revert mrs. induction p as [p IH|p IH|]; intros mrs H; cbn.
  - apply IH, IH. by apply shr_1_nonneg.
  - by apply IH, IH.
  - by apply shr_1_nonneg.
Qed.

Lemma shr_fexp_nonneg m e l :
  0 ≤ m → 0 ≤ shr_m (fst (shr_fexp prec emax m e l)).
Proof.
  intros Hm. unfold shr_fexp, shr.
  assert (H0 : 0 ≤ shr_m (shr_record_of_loc m l)) by (by destruct l as [|[]]).
  destruct (fexp prec emax (Zdigits2 m + e) - e); cbn [fst]; try done.
  by apply iter_shr_1_nonneg.
Qed.

Lemma round_nearest_even_nonneg m l : 0 ≤ m → 0 ≤ round_nearest_even m l.
Proof.
  intros H. destruct l as [|[]]; cbn; try lia. destruct (Z.even m); lia.
Qed.

(** Rounding a non-negative integer mantissa with a clear sign bit gives
    +0, a positive finite double or +infinity. *)
Lemma binary_round_aux_nonneg m e l :
  0 ≤ m → leb zero (binary_round_aux prec emax false m e l) = true.
Proof.
  intros Hm. unfold binary_round_aux.
  pose proof (shr_fexp_nonneg m e l Hm) as H1.
  destruct (shr_fexp prec emax m e l) as [mrs' e'] eqn:E1. cbn [fst] in H1.
  pose proof (shr_fexp_nonneg
                (round_nearest_even (shr_m mrs') (loc_of_shr_record mrs'))
                e' loc_Exact
                (round_nearest_even_nonneg _ _ H1)) as H2.
  destruct (shr_fexp prec emax _ e' loc_Exact) as [mrs'' e''] eqn:E2.
  cbn [fst] in H2.
  destruct (shr_m mrs'') as [|p|p]; [done| |lia].
  by destruct (e'' <=? emax - prec).
Qed.

Lemma binary_normalize_nonneg m e :
  0 ≤ m → leb zero (binary_normalize prec emax m e false) = true.
Proof.
  intros Hm. destruct m as [|p|p]; [done| |lia].
  cbn [binary_normalize]. unfold binary_round.
  destruct (shl_align p e _) as [mz ez]. by apply binary_round_aux_nonneg.
Qed.

(** The subtraction [withdraw] performs once both of its checks have
    passed, for a finite amount: the difference is [>= 0]. *)
Lemma sub_nonneg (b a : double) :
  valid b → valid a →
  leb zero b = true → leb a zero = false → ltb b a = false →
  is_finite a = true →
  leb zero (sub b a) = true.
Proof.
  intros Vb Va Hb Ha Hba Hfin.
  destruct a as [[]|[]| |[] ma ea]; try done.
  destruct b as [[]|[]| |[] mb eb]; try done.
  apply valid_finite in Va as (Hea & Hma & Hna).
  apply valid_finite in Vb as (Heb & Hmb & Hnb).
  unfold sub, SFsub. cbn [cond_Zopp]. apply binary_normalize_nonneg.
  unfold ltb, SFltb in Hba. cbn [SFcompare] in Hba.
  destruct (Z.compare_spec eb ea) as [E|E|E]; [| done |].
  - subst ea. rewrite Z.min_id.
    rewrite !shl_align_value by lia. rewrite Z.sub_diag, !Z.mul_1_r.
    change (Pos.compare_cont Eq mb ma) with (Pos.compare mb ma) in Hba.
    destruct (Pos.compare_spec mb ma); [lia|done|lia].
  - rewrite Z.min_r by lia. rewrite !shl_align_value by lia.
    rewrite Z.sub_diag, Z.mul_1_r.
    assert (2 ^ 1 ≤ 2 ^ (eb - ea)) by (apply Z.pow_le_mono_r; lia).
    specialize (Hnb ltac:(lia)).
    change (2 ^ 1) with 2 in *. change (2 ^ 53) with (2 ^ 52 * 2) in *. nia.
Qed.

(** For any amount that passes both checks, NaN and infinities
    included, the new balance does not compare below zero. *)
Lemma sub_not_negative (b a : double) :
  valid b → valid a →
  leb zero b = true → leb a zero = false → ltb b a = false →
  ltb (sub b a) zero = false.
Proof.
  intros Vb Va Hb Ha Hba.
  destruct (is_finite a) eqn:Hfin.
  - apply leb_not_ltb. by apply sub_nonneg.
  - destruct a as [[]|[]| |[] ma ea]; try done;
      by destruct b as [[]|[]| |[] mb eb].
Qed.

End DoubleFacts.

(** ** Running the monad *)

Ltac unfold_m := unfold bind, ret, ub, load, store in *.

Lemma bind_Some {A B} (m : M A) (f : A → M B) h y h2 :
  bind m f h = Some (y, h2) ↔ ∃ x h1, m h = Some (x, h1) ∧ f x h1 = Some (y, h2).
Proof.
  unfold bind. split.
  - destruct (m h) as [[x h1]|] eqn:E; [|discriminate]. eauto.
  - intros (x & h1 & -> & Hf). exact Hf.
Qed.

Lemma addTransaction_write_ok l a ty amt d (h : heap) :
  h !! l = Some a → write_ok a →
  addTransaction (Addr l) ty amt d h = Some (tt, <[l := append_txn ty amt d a]> h).
Proof.
  intros Hl Hb. unfold addTransaction, append_txn. unfold_m.
  rewrite Hl. destruct (MAX_TRANSACTIONS <=? transactionCount a) eqn:Hc.
  - by rewrite insert_id.
  - apply Z.leb_gt in Hc. destruct (Hb Hc) as [H0 Hlen].
    assert (Hi : (0 <=? transactionCount a) = true) by lia.
    assert (Hj : (Z.to_nat (transactionCount a) <? length (transactions a))%nat = true).
    { by apply Nat.ltb_lt. }
    rewrite Hi, Hj. cbn [andb]. cbv beta. by rewrite Hl.
Qed.

Lemma in_bounds_write_ok a : in_bounds a → write_ok a.
Proof. intros [H0 Hlen] Hlt. unfold MAX_TRANSACTIONS in *. lia. Qed.

Lemma log_inv_in_bounds a : log_inv a → in_bounds a.
Proof. intros [Hr Hlen _]. split; [lia|done]. Qed.

Lemma full_write_ok a : MAX_TRANSACTIONS ≤ transactionCount a → write_ok a.
Proof. intros H Hlt. lia. Qed.

Lemma in_bounds_append_txn ty amt d a :
  in_bounds a → in_bounds (append_txn ty amt d a).
Proof.
  intros [H0 Hlen]. unfold append_txn.
  destruct (MAX_TRANSACTIONS <=? transactionCount a); [done|].
  split; cbn; [lia|]. by rewrite length_insert.
Qed.

Lemma in_bounds_deposited amt d a : in_bounds a → in_bounds (deposited amt d a).
Proof. intros H. by apply in_bounds_append_txn. Qed.

Lemma in_bounds_withdrawn amt d a : in_bounds a → in_bounds (withdrawn amt d a).
Proof. intros H. by apply in_bounds_append_txn. Qed.

Lemma deposit_rejected p amt d (h : heap) :
  Double.leb amt Double.zero = true → deposit p amt d h = Some (-1, h).
Proof. intros H. unfold deposit. by rewrite H. Qed.

Lemma deposit_accepted l a amt d (h : heap) :
  h !! l = Some a → write_ok a → Double.leb amt Double.zero = false →
  deposit (Addr l) amt d h = Some (0, <[l := deposited amt d a]> h).
Proof.
  intros Hl Hb Hv. unfold deposit. rewrite Hv.
  unfold bind at 1. unfold load at 1. rewrite Hl.
  unfold bind at 1. unfold store at 1. rewrite Hl.
  unfold bind at 1.
  rewrite (addTransaction_write_ok l (set_balance (Double.add (balance a) amt) a));
    [| by rewrite lookup_insert_eq | done].
  by rewrite insert_insert_eq.
Qed.

Lemma withdraw_rejected_amount p amt d (h : heap) :
  Double.leb amt Double.zero = true → withdraw p amt d h = Some (-1, h).
Proof. intros H. unfold withdraw. by rewrite H. Qed.

Lemma withdraw_rejected_balance l a amt d (h : heap) :
  h !! l = Some a → Double.ltb (balance a) amt = true →
  withdraw (Addr l) amt d h = Some (-1, h).
Proof.
  intros Hl H. unfold withdraw. destruct (Double.leb amt Double.zero); [done|].
  unfold_m. by rewrite Hl, H.
Qed.

Lemma withdraw_accepted l a amt d (h : heap) :
  h !! l = Some a → write_ok a → Double.leb amt Double.zero = false →
  Double.ltb (balance a) amt = false →
  withdraw (Addr l) amt d h = Some (0, <[l := withdrawn amt d a]> h).
Proof.
  intros Hl Hb Hv Hs. unfold withdraw. rewrite Hv.
  unfold bind at 1. unfold load at 1. rewrite Hl, Hs.
  unfold bind at 1. unfold store at 1. rewrite Hl.
  unfold bind at 1.
  rewrite (addTransaction_write_ok l (set_balance (Double.sub (balance a) amt) a));
    [| by rewrite lookup_insert_eq | done].
  by rewrite insert_insert_eq.
Qed.

Lemma recorded_append_txn ty amt d a :
  in_bounds a → transactionCount a < MAX_TRANSACTIONS →
  recorded (append_txn ty amt d a)
    = recorded a ++ [mkTransaction ty amt (strncpy d 10)] ∧
  transactionCount (append_txn ty amt d a) = transactionCount a + 1.
Proof.
  intros [H0 Hlen] Hlt. unfold append_txn.
  destruct (Z.leb_spec MAX_TRANSACTIONS (transactionCount a)); [lia|].
  split; [|done]. unfold recorded. cbn [transactions transactionCount].
  replace (Z.to_nat (transactionCount a + 1))
    with (S (Z.to_nat (transactionCount a))) by lia.
  unfold MAX_TRANSACTIONS in *.
  erewrite take_S_r; [|apply list_lookup_insert_eq; lia].
  rewrite take_insert_ge by lia. by rewrite omap_app.
Qed.

Lemma recorded_set_balance b a : recorded (set_balance b a) = recorded a.
Proof. done. Qed.

Lemma append_txn_full ty amt d a :
  MAX_TRANSACTIONS ≤ transactionCount a → append_txn ty amt d a = a.
Proof.
  intros H. unfold append_txn.
  by destruct (Z.leb_spec MAX_TRANSACTIONS (transactionCount a)); [|lia].
Qed.

Lemma deposit_code p amt d (h h' : heap) r :
  deposit p amt d h = Some (r, h') →
  if Double.leb amt Double.zero then r = -1 ∧ h' = h else r = 0.
Proof.
  unfold deposit. destruct (Double.leb amt Double.zero).
  - unfold ret. by intros [= <- <-].
  - intros H. apply bind_Some in H as (a & h1 & _ & H).
    apply bind_Some in H as (? & h2 & _ & H).
    apply bind_Some in H as (? & h3 & _ & H).
    unfold ret in H. by injection H as <- _.
Qed.

Lemma withdraw_code l a amt d (h h' : heap) r :
  h !! l = Some a →
  withdraw (Addr l) amt d h = Some (r, h') →
  if Double.leb amt Double.zero || Double.ltb (balance a) amt
  then r = -1 ∧ h' = h else r = 0.
Proof.
  intros Hl. unfold withdraw. destruct (Double.leb amt Double.zero); cbn [orb].
  - unfold ret. by intros [= <- <-].
  - intros H. apply bind_Some in H as (a' & h1 & Hload & H).
    unfold load in Hload. rewrite Hl in Hload. injection Hload as <- <-.
    destruct (Double.ltb (balance a) amt).
    + unfold ret in H. by injection H as <- <-.
    + apply bind_Some in H as (? & h2 & _ & H).
      apply bind_Some in H as (? & h3 & _ & H).
      unfold ret in H. by injection H as <- _.
Qed.

(** C1. A deposit whose amount is [<= 0], and a withdrawal whose amount is
    [<= 0] or greater than the balance, return the failure code -1 and
    leave the whole heap as it was, hence the balance, the log and the
    count of the account; the code is distinct from the success code: a
    call that passes validation returns 0. *)
Theorem validation_failure_no_change l a amt d (h : heap) :
  h !! l = Some a →
  (Double.leb amt Double.zero = true →
     deposit (Addr l) amt d h = Some (-1, h)) ∧
  (Double.leb amt Double.zero = true ∨ Double.ltb (balance a) amt = true →
     withdraw (Addr l) amt d h = Some (-1, h)) ∧
  (∀ r h', Double.leb amt Double.zero = false →
     deposit (Addr l) amt d h = Some (r, h') → r = 0) ∧
  (∀ r h', Double.leb amt Double.zero = false →
     Double.ltb (balance a) amt = false →
     withdraw (Addr l) amt d h = Some (r, h') → r = 0).
Proof.
  intros Hl. repeat split.
  - apply deposit_rejected.
  - intros [H|H].
    + by apply withdraw_rejected_amount.
    + by apply (withdraw_rejected_balance l a).
  - intros r h' Hv H. apply deposit_code in H. by rewrite Hv in H.
  - intros r h' Hv Hs H. apply (withdraw_code l a) in H; [|done].
    by rewrite Hv, Hs in H.
Qed.

Lemma validation_failure_no_change_witness :
  deposit (Addr 2) (Double.of_Z (-5)) (cstr "refund") bob_heap
    = Some (-1, bob_heap) ∧
  withdraw (Addr 2) (Double.of_Z 0) (cstr "nothing") bob_heap
    = Some (-1, bob_heap).
Proof.
  split.
  - apply (validation_failure_no_change 2 bob _ _ bob_heap); reflexivity.
  - destruct (validation_failure_no_change 2 bob (Double.of_Z 0)
                (cstr "nothing") bob_heap) as (_ & H & _); [reflexivity|].
    apply H. left. reflexivity.
Defined.

(** C3 as stated fails when rounding absorbs the amount.  Ten accepted
    deposits on Alice's fresh account give [saturated_account], whose log
    is full and whose balance is 2^54; a further deposit and a withdrawal
    of 1.0 both pass validation and return 0, yet the heap after each is
    the heap before: the balance has not changed. *)
Lemma full_log_absorbed_counterexample :
  run_account_ops (Addr 1) saturating_ops alice_heap
    = Some (replicate 10 0, saturated_heap) ∧
  saturated_heap !! 1%positive = Some saturated_account ∧
  transactionCount saturated_account = MAX_TRANSACTIONS ∧
  Double.leb (Double.of_Z 1) Double.zero = false ∧
  Double.ltb (balance saturated_account) (Double.of_Z 1) = false ∧
  deposit (Addr 1) (Double.of_Z 1) (cstr "extra") saturated_heap
    = Some (0, saturated_heap) ∧
  withdraw (Addr 1) (Double.of_Z 1) (cstr "fee") saturated_heap
    = Some (0, saturated_heap) ∧
  Double.add (balance saturated_account) (Double.of_Z 1)
    = balance saturated_account ∧
  Double.sub (balance saturated_account) (Double.of_Z 1)
    = balance saturated_account.
Proof. repeat split; vm_compute; reflexivity. Qed.

(** C3 (amended: the balance is updated, to a value that rounding may
    make equal to the old one).  On an account whose count equals the
    capacity, a deposit or a withdrawal that passes validation returns 0
    and stores as balance the old balance plus, resp. minus, the amount,
    in double arithmetic, while the log and the count, still 10, are
    those of before: no record is appended. *)
Theorem full_log_drops_record l a amt d (h : heap) :
  h !! l = Some a →
  transactionCount a = MAX_TRANSACTIONS →
  Double.leb amt Double.zero = false →
  (∃ a', deposit (Addr l) amt d h = Some (0, <[l := a']> h) ∧
         balance a' = Double.add (balance a) amt ∧
         transactionCount a' = 10 ∧
         transactions a' = transactions a ∧
         recorded a' = recorded a) ∧
  (Double.ltb (balance a) amt = false →
   ∃ a', withdraw (Addr l) amt d h = Some (0, <[l := a']> h) ∧
         balance a' = Double.sub (balance a) amt ∧
         transactionCount a' = 10 ∧
         transactions a' = transactions a ∧
         recorded a' = recorded a).
Proof.
  intros Hl Hc Hv.
  assert (Hb : write_ok a) by (apply full_write_ok; lia).
  split; [|intros Hs].
  - exists (deposited amt d a). rewrite (deposit_accepted l a) by done.
    unfold deposited. rewrite append_txn_full by (cbn; lia).
    repeat split; exact Hc.
  - exists (withdrawn amt d a). rewrite (withdraw_accepted l a) by done.
    unfold withdrawn. rewrite append_txn_full by (cbn; lia).
    repeat split; exact Hc.
Qed.

Lemma full_log_drops_record_witness :
  ∃ a', deposit (Addr 1) (Double.of_Z 3) (cstr "extra") full_heap
          = Some (0, <[1%positive := a']> full_heap) ∧
        balance a' = Double.add (balance full_account) (Double.of_Z 3) ∧
        transactionCount a' = 10 ∧
        transactions a' = transactions full_account ∧
        recorded a' = recorded full_account.
Proof.
  apply (full_log_drops_record 1 full_account (Double.of_Z 3) (cstr "extra")
           full_heap); reflexivity.
Defined.

(** ** Lookup *)

Lemma findAccount_loop_heap accounts n i num (h h' : heap) p :
  findAccount_loop accounts n i num h = Some (p, h') → h' = h.
Proof.
  revert i. induction n as [|n IH]; intros i; cbn.
  - unfold ret. by intros [= _ <-].
  - destruct (accounts !! i) as [q|]; [|done].
    intros H. apply bind_Some in H as (a & h1 & Hload & H).
    assert (h1 = h) as ->.
    { unfold load in Hload. destruct q; [done|].
      destruct (h !! l); [|done]. by injection Hload as _ <-. }
    destruct (accountNumber a =? num).
    + unfold ret in H. by injection H as _ <-.
    + by apply IH in H.
Qed.

(** The account a successful lookup returns carries the number asked for. *)
Lemma findAccount_loop_found accounts n i num (h h' : heap) l :
  findAccount_loop accounts n i num h = Some (Addr l, h') →
  ∃ a, h !! l = Some a ∧ accountNumber a = num.
Proof.
  revert i. induction n as [|n IH]; intros i; cbn.
  - by unfold ret.
  - destruct (accounts !! i) as [q|]; [|done].
    intros H. apply bind_Some in H as (a & h1 & Hload & H).
    unfold load in Hload. destruct q as [|l']; [done|].
    destruct (h !! l') as [a'|] eqn:Hl'; [|done]. injection Hload as <- <-.
    destruct (accountNumber a' =? num) eqn:E.
    + unfold ret in H. injection H as <-. exists a'. split; [done|].
      by apply Z.eqb_eq.
    + by apply IH in H.
Qed.

Lemma findAccount_loop_spec accounts n i num (h : heap) :
  (i + n ≤ length accounts)%nat →
  (∀ (j : nat) p, (i ≤ j < i + n)%nat → accounts !! j = Some p →
     ∃ l a, p = Addr l ∧ h !! l = Some a) →
  ∃ p, findAccount_loop accounts n i num h = Some (p, h) ∧
    ((p = NULL ∧
      ∀ j : nat, (i ≤ j < i + n)%nat → number_at h accounts j ≠ Some num) ∨
     (∃ k : nat, (i ≤ k < i + n)%nat ∧ accounts !! k = Some p ∧
        number_at h accounts k = Some num ∧
        ∀ j : nat, (i ≤ j < k)%nat → number_at h accounts j ≠ Some num)).
Proof.
  revert i. induction n as [|n IH]; intros i Hlen Hok; cbn.
  - exists NULL. split; [done|]. left. split; [done|]. intros j Hj. lia.
  - destruct (accounts !! i) as [q|] eqn:Hq.
    2:{ apply lookup_ge_None in Hq. lia. }
    destruct (Hok i q) as (l & a & -> & Hl); [lia|done|].
    assert (Hnum : number_at h accounts i = Some (accountNumber a)).
    { unfold number_at. by rewrite Hq, Hl. }
    unfold bind, load. rewrite Hl.
    destruct (Z.eqb_spec (accountNumber a) num) as [E|E].
    + exists (Addr l). split; [done|]. right. exists i.
      repeat split; [lia|lia|done|by rewrite Hnum, E|]. intros j Hj. lia.
    + destruct (IH (S i)) as (p & Hrun & Hp); [lia| |].
      { intros j p Hj. apply Hok. lia. }
      exists p. split; [done|].
      assert (Hi : number_at h accounts i ≠ Some num).
      { rewrite Hnum. congruence. }
      destruct Hp as [[-> Hnone]|(k & Hk & Hkp & Hkn & Hbefore)].
      * left. split; [done|]. intros j Hj.
        destruct (decide (j = i)) as [->|]; [done|]. apply Hnone. lia.
      * right. exists k. repeat split; [lia|lia|done|done|].
        intros j Hj. destruct (decide (j = i)) as [->|]; [done|].
        apply Hbefore. lia.
Qed.

Lemma findAccount_spec accounts total num (h : heap) :
  registry_ok h accounts total →
  ∃ p, findAccount accounts total num h = Some (p, h) ∧
    ((p = NULL ∧ absent h accounts total num) ∨
     (∃ k : nat, (k < Z.to_nat total)%nat ∧ accounts !! k = Some p ∧
        number_at h accounts k = Some num ∧
        ∀ j : nat, (j < k)%nat → number_at h accounts j ≠ Some num)).
Proof.
  intros [Hlen Hok]. unfold findAccount, absent.
  destruct (findAccount_loop_spec accounts (Z.to_nat total) 0 num h)
    as (p & Hrun & Hp); [lia| |].
  { intros j p Hj. apply Hok. lia. }
  exists p. split; [done|].
  destruct Hp as [[-> Hnone]|(k & Hk & Hkp & Hkn & Hbefore)].
  - left. split; [done|]. intros j Hj. apply Hnone. lia.
  - right. exists k. repeat split; [lia|done|done|].
    intros j Hj. apply Hbefore. lia.
Qed.

Lemma findAccount_absent accounts total num (h : heap) :
  registry_ok h accounts total → absent h accounts total num →
  findAccount accounts total num h = Some (NULL, h).
Proof.
  intros Hok Habs.
  destruct (findAccount_spec accounts total num h Hok)
    as (p & Hrun & [[-> _]|(k & Hk & _ & Hkn & _)]); [done|].
  by destruct (Habs k Hk).
Qed.

Lemma twin_registry_ok : registry_ok twin_heap twin_registry 3.
Proof.
  split; [cbn; lia|]. intros i p Hi Hp.
  destruct i as [|[|[|i]]]; cbn in Hp; [| | |cbn in Hi; lia];
    injection Hp as <-; eexists _, _; (split; [reflexivity|]);
    vm_compute; reflexivity.
Qed.

(** C8. On a registry it can scan, [findAccount] returns without touching
    the heap, and its result is either NULL, when none of the first
    [totalAccounts] accounts carries the number, or the pointer at the
    least index whose account carries it: no earlier entry matches, so
    among duplicated identifiers the first in iteration order wins. *)
Theorem findAccount_first_match accounts total num (h : heap) :
  registry_ok h accounts total →
  ∃ p, findAccount accounts total num h = Some (p, h) ∧
    ((p = NULL ∧ absent h accounts total num) ∨
     (∃ k : nat, (k < Z.to_nat total)%nat ∧ accounts !! k = Some p ∧
        number_at h accounts k = Some num ∧
        ∀ j : nat, (j < k)%nat → number_at h accounts j ≠ Some num)).
Proof. apply findAccount_spec. Qed.

Lemma findAccount_first_match_witness :
  ∃ p, findAccount twin_registry 3 42 twin_heap = Some (p, twin_heap) ∧
    ((p = NULL ∧ absent twin_heap twin_registry 3 42) ∨
     (∃ k : nat, (k < Z.to_nat 3)%nat ∧ twin_registry !! k = Some p ∧
        number_at twin_heap twin_registry k = Some 42 ∧
        ∀ j : nat, (j < k)%nat → number_at twin_heap twin_registry j ≠ Some 42)).
Proof.
  apply (findAccount_first_match twin_registry 3 42 twin_heap).
  apply twin_registry_ok.
Defined.

(** With the identifier duplicated at indices 1 and 2, the lookup returns
    the pointer of index 1. *)
Example findAccount_twin :
  findAccount twin_registry 3 42 twin_heap = Some (Addr 3, twin_heap).
Proof. vm_compute. reflexivity. Qed.

(** ** Transfer *)

(** C5. On a registry it can scan, when [fromAccNum] or [toAccNum] is
    carried by none of the scanned accounts, [transfer] returns (it is a
    [void] function: no code, no error) and leaves the heap, hence every
    balance and every log, as it was. *)
Theorem transfer_absent_no_change accounts total fromAccNum toAccNum amt
    (h : heap) :
  registry_ok h accounts total →
  absent h accounts total fromAccNum ∨ absent h accounts total toAccNum →
  transfer accounts total fromAccNum toAccNum amt h = Some (tt, h).
Proof.
  intros Hok Habs. unfold transfer.
  destruct (findAccount_spec accounts total fromAccNum h Hok) as (pf & Hf & _).
  destruct (findAccount_spec accounts total toAccNum h Hok) as (pt & Ht & _).
  unfold bind at 1. rewrite Hf. unfold bind at 1. rewrite Ht.
  destruct Habs as [Ha|Ha].
  - rewrite (findAccount_absent _ _ _ _ Hok Ha) in Hf. by injection Hf as <-.
  - rewrite (findAccount_absent _ _ _ _ Hok Ha) in Ht. injection Ht as <-.
    by rewrite orb_true_r.
Qed.

Lemma transfer_absent_no_change_witness :
  transfer twin_registry 3 42 99 (Double.of_Z 5) twin_heap
    = Some (tt, twin_heap).
Proof.
  apply transfer_absent_no_change.
  - apply twin_registry_ok.
  - right. intros i Hi. destruct i as [|[|[|i]]]; [| | |cbn in Hi; lia];
      vm_compute; discriminate.
Defined.

(** Once both lookups have succeeded, [transfer] is the withdrawal from
    the source followed, when it returned 0, by the deposit into the
    destination. *)
Lemma transfer_found accounts total fromAccNum toAccNum amt lf lt (h : heap) :
  findAccount accounts total fromAccNum h = Some (Addr lf, h) →
  findAccount accounts total toAccNum h = Some (Addr lt, h) →
  transfer accounts total fromAccNum toAccNum amt h =
    (do r <- withdraw (Addr lf) amt (cstr "Transfer to");
     if r =? 0 then deposit (Addr lt) amt (cstr "Transfer from") ;;; ret tt
     else ret tt) h.
Proof.
  intros Hf Ht. unfold transfer.
  unfold bind at 1. rewrite Hf. unfold bind at 1. by rewrite Ht.
Qed.

Lemma withdraw_success_amount p amt d (h h1 : heap) :
  withdraw p amt d h = Some (0, h1) → Double.leb amt Double.zero = false.
Proof.
  unfold withdraw. destruct (Double.leb amt Double.zero); [|done].
  unfold ret. discriminate.
Qed.

Lemma findAccount_found accounts total num (h h' : heap) l :
  findAccount accounts total num h = Some (Addr l, h') →
  ∃ a, h !! l = Some a ∧ accountNumber a = num.
Proof. apply findAccount_loop_found. Qed.

(** C4 as stated fails when both identifiers name the same account: 17 is
    present with balance 20.0 >= 5.0 > 0, and after the transfer from 17
    to 17 its balance is neither 20.0 - 5.0 nor 20.0 + 5.0 (it is 20.0
    again, with two records appended). *)
Lemma transfer_to_self_counterexample :
  findAccount twin_registry 3 17 twin_heap = Some (Addr 2, twin_heap) ∧
  twin_heap !! 2%positive = Some (plain_account 17 20) ∧
  Double.ltb Double.zero (Double.of_Z 5) = true ∧
  Double.leb (Double.of_Z 5) (balance (plain_account 17 20)) = true ∧
  ∃ h' a', transfer twin_registry 3 17 17 (Double.of_Z 5) twin_heap
             = Some (tt, h') ∧
           h' !! 2%positive = Some a' ∧
           balance a' ≠ Double.sub (balance (plain_account 17 20)) (Double.of_Z 5) ∧
           balance a' ≠ Double.add (balance (plain_account 17 20)) (Double.of_Z 5) ∧
           balance a' = Double.of_Z 20 ∧
           transactionCount a' = 2.
Proof.
  repeat split; try (vm_compute; reflexivity).
  exists (<[2%positive :=
             deposited (Double.of_Z 5) (cstr "Transfer from")
               (withdrawn (Double.of_Z 5) (cstr "Transfer to")
                  (plain_account 17 20))]> twin_heap).
  exists (deposited (Double.of_Z 5) (cstr "Transfer from")
            (withdrawn (Double.of_Z 5) (cstr "Transfer to")
               (plain_account 17 20))).
  repeat split; try (vm_compute; reflexivity); vm_compute; discriminate.
Qed.

(** C4 (amended: the two identifiers differ). When the lookups of
    [fromAccNum] and [toAccNum] both succeed, the identifiers differ, the
    amount is positive and the source balance is at least the amount,
    [transfer] returns with the source balance decreased by the amount and
    the destination balance increased by it (double arithmetic), one
    record appended to the log of each of the two accounts that is under
    capacity, and every other account untouched. *)
Theorem transfer_moves_amount accounts total fromAccNum toAccNum amt
    lf lt af at_ (h : heap) :
  findAccount accounts total fromAccNum h = Some (Addr lf, h) →
  findAccount accounts total toAccNum h = Some (Addr lt, h) →
  h !! lf = Some af → h !! lt = Some at_ →
  in_bounds af → in_bounds at_ →
  fromAccNum ≠ toAccNum →
  Double.ltb Double.zero amt = true →
  Double.leb amt (balance af) = true →
  ∃ af' at' h',
    transfer accounts total fromAccNum toAccNum amt h = Some (tt, h') ∧
    h' !! lf = Some af' ∧ h' !! lt = Some at' ∧
    balance af' = Double.sub (balance af) amt ∧
    balance at' = Double.add (balance at_) amt ∧
    (transactionCount af < MAX_TRANSACTIONS →
       recorded af' = recorded af ++
         [mkTransaction WITHDRAWAL amt (strncpy (cstr "Transfer to") 10)] ∧
       transactionCount af' = transactionCount af + 1) ∧
    (transactionCount at_ < MAX_TRANSACTIONS →
       recorded at' = recorded at_ ++
         [mkTransaction DEPOSIT amt (strncpy (cstr "Transfer from") 10)] ∧
       transactionCount at' = transactionCount at_ + 1) ∧
    (∀ l, l ≠ lf → l ≠ lt → h' !! l = h !! l).
Proof.
  intros Hf Ht Hlf Hlt Hbf Hbt Hne Hpos Hle.
  assert (Hll : lf ≠ lt).
  { intros ->. apply findAccount_found in Hf as (a1 & H1 & E1).
    apply findAccount_found in Ht as (a2 & H2 & E2). congruence. }
  pose proof (positive_not_leb_zero _ Hpos) as Hv.
  pose proof (leb_not_ltb _ _ Hle) as Hs.
  exists (withdrawn amt (cstr "Transfer to") af),
         (deposited amt (cstr "Transfer from") at_).
  eexists. rewrite (transfer_found _ _ _ _ _ lf lt) by done.
  unfold bind at 1.
  rewrite (withdraw_accepted lf af) by (auto using in_bounds_write_ok).
  cbn [Z.eqb]. unfold bind at 1.
  rewrite (deposit_accepted lt at_);
    [|by rewrite lookup_insert_ne|by apply in_bounds_write_ok|done].
  split; [reflexivity|].
  split; [by rewrite lookup_insert_ne, lookup_insert_eq|].
  split; [by rewrite lookup_insert_eq|].
  split.
  { unfold withdrawn, append_txn.
    by destruct (MAX_TRANSACTIONS <=? _). }
  split.
  { unfold deposited, append_txn.
    by destruct (MAX_TRANSACTIONS <=? _). }
  split; [intros Hc; by apply (recorded_append_txn WITHDRAWAL amt _
                                 (set_balance _ af))|].
  split; [intros Hc; by apply (recorded_append_txn DEPOSIT amt _
                                 (set_balance _ at_))|].
  intros l H1 H2. by rewrite !lookup_insert_ne.
Qed.

Lemma twin_in_bounds n b : in_bounds (plain_account n b).
Proof. split; cbn; [lia|reflexivity]. Qed.

Lemma transfer_moves_amount_witness :
  ∃ af' at' h',
    transfer twin_registry 3 17 42 (Double.of_Z 5) twin_heap = Some (tt, h') ∧
    h' !! 2%positive = Some af' ∧ h' !! 3%positive = Some at' ∧
    balance af' = Double.of_Z 15 ∧ balance at' = Double.of_Z 35.
Proof.
  destruct (transfer_moves_amount twin_registry 3 17 42 (Double.of_Z 5)
              2 3 (plain_account 17 20) (plain_account 42 30) twin_heap)
    as (af' & at' & h' & Hrun & H1 & H2 & B1 & B2 & _);
    try reflexivity; try apply twin_in_bounds; [lia|].
  exists af', at', h'. repeat split; done.
Defined.

(** C6. With both accounts found, [transfer] has two outcomes only: the
    withdrawal returns -1 and the heap is as before, or the withdrawal
    returns 0 and the deposit into the destination then returns 0 as
    well, the heap being the one after both legs.  In general a deposit
    of an amount that [withdraw] has just accepted never returns -1. *)
Theorem transfer_all_or_nothing accounts total fromAccNum toAccNum amt
    lf lt af at_ (h : heap) :
  findAccount accounts total fromAccNum h = Some (Addr lf, h) →
  findAccount accounts total toAccNum h = Some (Addr lt, h) →
  h !! lf = Some af → h !! lt = Some at_ →
  in_bounds af → in_bounds at_ →
  (∀ p q d1 d2 (h0 h1 h2 : heap) r,
     withdraw p amt d1 h0 = Some (0, h1) →
     deposit q amt d2 h1 = Some (r, h2) → r = 0) ∧
  ((withdraw (Addr lf) amt (cstr "Transfer to") h = Some (-1, h) ∧
    transfer accounts total fromAccNum toAccNum amt h = Some (tt, h)) ∨
   (∃ h1 h',
      withdraw (Addr lf) amt (cstr "Transfer to") h = Some (0, h1) ∧
      deposit (Addr lt) amt (cstr "Transfer from") h1 = Some (0, h') ∧
      transfer accounts total fromAccNum toAccNum amt h = Some (tt, h'))).
Proof.
  intros Hf Ht Hlf Hlt Hbf Hbt. split.
  { intros p q d1 d2 h0 h1 h2 r Hw Hd.
    apply withdraw_success_amount in Hw. apply deposit_code in Hd.
    by rewrite Hw in Hd. }
  rewrite (transfer_found _ _ _ _ _ lf lt) by done. unfold bind at 1 3.
  destruct (Double.leb amt Double.zero) eqn:Hv.
  { left. by rewrite withdraw_rejected_amount. }
  destruct (Double.ltb (balance af) amt) eqn:Hs.
  { left. by rewrite (withdraw_rejected_balance lf af). }
  right. rewrite (withdraw_accepted lf af) by (auto using in_bounds_write_ok).
  cbn [Z.eqb]. unfold bind.
  destruct (decide (lt = lf)) as [->|Hne].
  - eexists _, _. split; [reflexivity|].
    rewrite (deposit_accepted lf (withdrawn amt (cstr "Transfer to") af));
      [|by rewrite lookup_insert_eq
       |by apply in_bounds_write_ok, in_bounds_withdrawn|done].
    split; reflexivity.
  - eexists _, _. split; [reflexivity|].
    rewrite (deposit_accepted lt at_);
      [|by rewrite lookup_insert_ne|by apply in_bounds_write_ok|done].
    split; reflexivity.
Qed.

Lemma transfer_all_or_nothing_witness :
  (withdraw (Addr 2) (Double.of_Z 5) (cstr "Transfer to") twin_heap
     = Some (-1, twin_heap) ∧
   transfer twin_registry 3 17 42 (Double.of_Z 5) twin_heap
     = Some (tt, twin_heap)) ∨
  (∃ h1 h',
     withdraw (Addr 2) (Double.of_Z 5) (cstr "Transfer to") twin_heap
       = Some (0, h1) ∧
     deposit (Addr 3) (Double.of_Z 5) (cstr "Transfer from") h1
       = Some (0, h') ∧
     transfer twin_registry 3 17 42 (Double.of_Z 5) twin_heap
       = Some (tt, h')).
Proof.
  apply (transfer_all_or_nothing twin_registry 3 17 42 (Double.of_Z 5)
           2 3 (plain_account 17 20) (plain_account 42 30) twin_heap);
    try reflexivity; apply twin_in_bounds.
Defined.

(** ** Withdrawals and the sign of the balance *)

(** C7 as stated fails for a NaN amount: both checks of [withdraw] are
    comparisons, false on a NaN, so on Bob's account (balance 800.0 >= 0)
    the call returns 0 and stores a NaN balance, for which [0 <= balance]
    does not hold. *)
Lemma withdraw_nan_counterexample :
  bob_heap !! 2%positive = Some bob ∧
  Double.leb Double.zero (balance bob) = true ∧
  ∃ a', withdraw (Addr 2) Double.nan (cstr "oops") bob_heap
          = Some (0, <[2%positive := a']> bob_heap) ∧
        balance a' = Double.nan ∧
        Double.leb Double.zero (balance a') = false.
Proof.
  split; [reflexivity|]. split; [reflexivity|].
  exists (withdrawn Double.nan (cstr "oops") bob).
  repeat split; vm_compute; reflexivity.
Qed.

(** C7 (amended: "not below zero" instead of "at least zero", the latter
    for finite amounts).  On an account whose balance is [>= 0],
    [withdraw] either returns -1 and changes nothing, or returns 0 and
    leaves a balance for which [balance < 0] is false; when the amount is
    finite (neither a NaN nor an infinity) that balance is [>= 0].  The
    withdraw leg of [transfer] is this same call on the source account. *)
Theorem withdraw_never_negative l a amt d (h : heap) :
  h !! l = Some a → in_bounds a →
  Double.valid (balance a) → Double.valid amt →
  Double.leb Double.zero (balance a) = true →
  (withdraw (Addr l) amt d h = Some (-1, h) ∨
   ∃ a', withdraw (Addr l) amt d h = Some (0, <[l := a']> h) ∧
         balance a' = Double.sub (balance a) amt ∧
         Double.ltb (balance a') Double.zero = false ∧
         (Double.is_finite amt = true →
            Double.leb Double.zero (balance a') = true)) ∧
  (∀ accounts total fromAccNum toAccNum lt,
     findAccount accounts total fromAccNum h = Some (Addr l, h) →
     findAccount accounts total toAccNum h = Some (Addr lt, h) →
     transfer accounts total fromAccNum toAccNum amt h =
       (do r <- withdraw (Addr l) amt (cstr "Transfer to");
        if r =? 0 then
          deposit (Addr lt) amt (cstr "Transfer from") ;;; ret tt
        else ret tt) h).
Proof.
  intros Hl Hb Vb Va Hpos. split.
  2:{ intros accounts total fromAccNum toAccNum lt Hf Ht.
      by apply transfer_found. }
  destruct (Double.leb amt Double.zero) eqn:Hv.
  { left. by apply withdraw_rejected_amount. }
  destruct (Double.ltb (balance a) amt) eqn:Hs.
  { left. by apply (withdraw_rejected_balance l a). }
  right. exists (withdrawn amt d a).
  assert (Hbal : balance (withdrawn amt d a) = Double.sub (balance a) amt).
  { unfold withdrawn, append_txn. by destruct (MAX_TRANSACTIONS <=? _). }
  split; [by apply withdraw_accepted; auto using in_bounds_write_ok|].
  split; [done|]. rewrite Hbal. split.
  - by apply sub_not_negative.
  - intros Hfin. by apply sub_nonneg.
Qed.

Lemma withdraw_never_negative_witness :
  withdraw (Addr 2) (Double.of_Z 300) (cstr "rent") bob_heap
    = Some (-1, bob_heap) ∨
  ∃ a', withdraw (Addr 2) (Double.of_Z 300) (cstr "rent") bob_heap
          = Some (0, <[2%positive := a']> bob_heap) ∧
        balance a' = Double.sub (balance bob) (Double.of_Z 300) ∧
        Double.ltb (balance a') Double.zero = false ∧
        (Double.is_finite (Double.of_Z 300) = true →
           Double.leb Double.zero (balance a') = true).
Proof.
  apply (withdraw_never_negative 2 bob (Double.of_Z 300) (cstr "rent")
           bob_heap); try reflexivity.
  split; cbn; [lia|reflexivity].
Defined.

(** ** Account creation *)

Lemma is_NUL_true c : is_NUL c = true ↔ c = NUL.
Proof. apply Ascii.eqb_eq. Qed.

Lemma is_NUL_false c : is_NUL c = false ↔ c ≠ NUL.
Proof. apply Ascii.eqb_neq. Qed.

Lemma strncpy_nil n : strncpy [] n = replicate n NUL.
Proof. induction n as [|n IH]; cbn; [done|]. by rewrite IH. Qed.

Lemma strncpy_length src n : length (strncpy src n) = n.
Proof.
  revert src. induction n as [|n IH]; intros [|c src]; cbn; try done.
  - by rewrite IH.
  - destruct (is_NUL c); cbn; by rewrite IH.
Qed.

(** What [strncpy] leaves in the buffer: the first [n] characters of the
    source, then NUL padding when the source is shorter than [n]. *)
Lemma strncpy_chars src n :
  strncpy src n = take n (chars src) ++ replicate (n - strlen src) NUL.
Proof.
  unfold chars. revert src. induction n as [|n IH]; intros [|c src]; cbn.
  - done.
  - by destruct (is_NUL c).
  - by rewrite strncpy_nil.
  - destruct (is_NUL c); cbn.
    + by rewrite strncpy_nil.
    + by rewrite IH.
Qed.

Lemma chars_visible src : Forall (λ c, c ≠ NUL) (chars src).
Proof.
  unfold chars. induction src as [|c src IH]; cbn; [done|].
  destruct (is_NUL c) eqn:E; cbn; [done|].
  constructor; [by apply is_NUL_false|done].
Qed.

Lemma chars_length src : length (chars src) = strlen src.
Proof.
  unfold chars. induction src as [|c src IH]; cbn; [done|].
  destruct (is_NUL c); cbn; [done|]. by rewrite IH.
Qed.

Lemma visible_all buf : Forall (λ c, c ≠ NUL) buf → visible buf = length buf.
Proof.
  unfold visible. induction 1 as [|c buf Hc _ IH]; [done|].
  rewrite filter_cons_True by (by apply is_NUL_false). cbn. by rewrite IH.
Qed.

Lemma visible_padding n : visible (replicate n NUL) = O.
Proof.
  unfold visible. induction n as [|n IH]; [done|]. cbn [replicate].
  by rewrite filter_cons_False.
Qed.

Lemma visible_app b1 b2 : visible (b1 ++ b2) = (visible b1 + visible b2)%nat.
Proof. unfold visible. by rewrite filter_app, length_app. Qed.

Lemma visible_strncpy src n : visible (strncpy src n) = (n `min` strlen src)%nat.
Proof.
  rewrite strncpy_chars, visible_app, visible_padding, Nat.add_0_r.
  rewrite visible_all.
  - by rewrite length_take, chars_length.
  - apply Forall_take, chars_visible.
Qed.

(** C9 as stated fails on the first account of the demo: the five
    characters of "Alice" are all stored, one more than the four the claim
    allows. *)
Lemma createAccount_alice_counterexample :
  ∃ a, createAccount true 1001 (cstr "Alice") ∅
         = Some (Addr 1, {[ 1%positive := a ]}) ∧
       holderName a = cstr "Alice" ∧
       visible (holderName a) = 5%nat ∧
       ¬ (visible (holderName a) ≤ 4)%nat.
Proof.
  exists (mkBankAccount 1001 (cstr "Alice") Double.zero (replicate 10 None) 0).
  repeat split; try (vm_compute; reflexivity). vm_compute. lia.
Qed.

(** C9 (amended: at most 5 visible characters).  When allocation fails
    [createAccount] returns NULL and the heap is unchanged; this is its
    only failure.  Otherwise it returns a fresh address holding an account
    with the given number, balance 0.0, count 0 and nothing on record, all
    ten slots unwritten; the holder name is the 5-byte buffer [strncpy]
    fills: the first [min (strlen holderName) 5] characters of the name,
    NUL-padded, so at most 5 visible characters, with a terminator exactly
    when the name is shorter than 5 characters. *)
Theorem createAccount_result num name (h : heap) :
  createAccount false num name h = Some (NULL, h) ∧
  ∃ l a,
    createAccount true num name h = Some (Addr l, <[l := a]> h) ∧
    h !! l = None ∧
    accountNumber a = num ∧
    balance a = Double.zero ∧
    transactionCount a = 0 ∧
    transactions a = replicate 10 None ∧
    recorded a = [] ∧
    holderName a = take 5 (chars name) ++ replicate (5 - strlen name) NUL ∧
    length (holderName a) = 5%nat ∧
    visible (holderName a) = (5 `min` strlen name)%nat ∧
    (visible (holderName a) ≤ 5)%nat ∧
    ((5 ≤ strlen name)%nat → Forall (λ c, c ≠ NUL) (holderName a)) ∧
    ((strlen name < 5)%nat → holderName a !! strlen name = Some NUL).
Proof.
  split; [done|]. unfold createAccount. cbn [negb].
  eexists _, _. split; [reflexivity|].
  cbn [accountNumber balance transactionCount transactions holderName].
  change (Z.to_nat NAME_LENGTH) with 5%nat.
  split.
  { apply not_elem_of_dom. apply is_fresh. }
  do 5 (split; [done|]).
  split; [apply (strncpy_chars name 5)|].
  split; [apply strncpy_length|].
  split; [apply (visible_strncpy name 5)|].
  split; [rewrite (visible_strncpy name 5); lia|].
  rewrite (strncpy_chars name 5). split.
  - intros Hlen. replace (5 - strlen name)%nat with O by lia.
    rewrite app_nil_r. apply Forall_take, chars_visible.
  - intros Hlen. rewrite take_ge by (rewrite chars_length; lia).
    rewrite lookup_app_r by (rewrite chars_length; lia).
    rewrite chars_length, Nat.sub_diag.
    apply lookup_replicate_2. lia.
Qed.

(** ** The balance and the log *)

Lemma balance_deposited amt d a :
  balance (deposited amt d a) = Double.add (balance a) amt.
Proof. unfold deposited, append_txn. by destruct (MAX_TRANSACTIONS <=? _). Qed.

Lemma balance_withdrawn amt d a :
  balance (withdrawn amt d a) = Double.sub (balance a) amt.
Proof. unfold withdrawn, append_txn. by destruct (MAX_TRANSACTIONS <=? _). Qed.

Lemma net_snoc log t : net (log ++ [t]) = apply_txn (net log) t.
Proof. unfold net. by rewrite foldl_app. Qed.

(** One call on an account whose log has room keeps the balance equal to
    the net of the log. *)
Lemma account_op_step l a o (h : heap) :
  h !! l = Some a → in_bounds a →
  transactionCount a < MAX_TRANSACTIONS →
  balance a = net (recorded a) →
  ∃ r a',
    run_account_op (Addr l) o h = Some (r, <[l := a']> h) ∧
    in_bounds a' ∧ balance a' = net (recorded a') ∧
    transactionCount a ≤ transactionCount a' ≤ transactionCount a + 1 ∧
    (r = 0 → recorded a' = recorded a ++ [txn_of_op o]).
Proof.
  intros Hl Hb Hc Hnet.
  assert (Hkeep : ∃ r a', Some (-1, h) = Some (r, <[l := a']> h) ∧
            in_bounds a' ∧ balance a' = net (recorded a') ∧
            transactionCount a ≤ transactionCount a' ≤ transactionCount a + 1 ∧
            (r = 0 → recorded a' = recorded a ++ [txn_of_op o])).
  { exists (-1), a. rewrite insert_id by done.
    do 3 (split; [done|]). split; [lia|]. intros [=]. }
  destruct o as [amt d|amt d]; cbn [run_account_op].
  - destruct (Double.leb amt Double.zero) eqn:Hv.
    { by rewrite deposit_rejected. }
    clear Hkeep. exists 0, (deposited amt d a).
    rewrite (deposit_accepted l a) by (auto using in_bounds_write_ok).
    destruct (recorded_append_txn DEPOSIT amt d
                (set_balance (Double.add (balance a) amt) a) Hb Hc) as [Hr Hn].
    fold (deposited amt d a) in Hr, Hn. rewrite recorded_set_balance in Hr.
    cbn [transactionCount set_balance] in Hn.
    split; [done|]. split; [by apply in_bounds_deposited|].
    split; [|split; [lia|done]].
    by rewrite balance_deposited, Hr, net_snoc, Hnet.
  - destruct (Double.leb amt Double.zero) eqn:Hv.
    { by rewrite withdraw_rejected_amount. }
    destruct (Double.ltb (balance a) amt) eqn:Hs.
    { by rewrite (withdraw_rejected_balance l a). }
    clear Hkeep. exists 0, (withdrawn amt d a).
    rewrite (withdraw_accepted l a) by (auto using in_bounds_write_ok).
    destruct (recorded_append_txn WITHDRAWAL amt d
                (set_balance (Double.sub (balance a) amt) a) Hb Hc) as [Hr Hn].
    fold (withdrawn amt d a) in Hr, Hn. rewrite recorded_set_balance in Hr.
    cbn [transactionCount set_balance] in Hn.
    split; [done|]. split; [by apply in_bounds_withdrawn|].
    split; [|split; [lia|done]].
    by rewrite balance_withdrawn, Hr, net_snoc, Hnet.
Qed.

Lemma run_account_ops_net os : ∀ l a (h : heap),
  h !! l = Some a → in_bounds a →
  transactionCount a + Z.of_nat (length os) ≤ MAX_TRANSACTIONS →
  balance a = net (recorded a) →
  ∃ rs h' a',
    run_account_ops (Addr l) os h = Some (rs, h') ∧
    h' !! l = Some a' ∧
    length rs = length os ∧
    balance a' = net (recorded a') ∧
    (Forall (λ r, r = 0) rs →
       recorded a' = recorded a ++ (txn_of_op <$> os)).
Proof.
  induction os as [|o os IH]; intros l a h Hl Hb Hc Hnet.
  - exists [], h, a. cbn. rewrite app_nil_r. by repeat split.
  - cbn [length] in Hc.
    destruct (account_op_step l a o h Hl Hb ltac:(lia) Hnet)
      as (r & a1 & Hrun & Hb1 & Hnet1 & Hc1 & Hrec1).
    destruct (IH l a1 (<[l := a1]> h)) as (rs & h' & a' & Hrun' & Hl' & Hlen & Hnet' & Hrec');
      [by rewrite lookup_insert_eq|done|lia|done|].
    exists (r :: rs), h', a'. cbn [run_account_ops].
    unfold bind at 1. rewrite Hrun. unfold bind at 1. rewrite Hrun'.
    split; [done|]. split; [done|]. split; [cbn; by rewrite Hlen|].
    split; [done|]. intros Hall. apply Forall_cons in Hall as [Hr Hall].
    rewrite (Hrec' Hall), (Hrec1 Hr). cbn [fmap list_fmap].
    by rewrite <- app_assoc.
Qed.

(** C2 as stated fails under rounding.  The four calls of [absorbed_ops]
    all succeed on a fresh account and all are on record, within the
    capacity of 10; the balance ends at 1.0, while sum(deposits) -
    sum(withdrawals) is 0.0 when the sums are accumulated in doubles and
    2 when they are exact. *)
Lemma balance_sum_counterexample :
  ∃ h' a,
    createAccount true 1001 (cstr "Alice") ∅
      = Some (Addr 1, {[ 1%positive := fresh_account 1001 (cstr "Alice") ]}) ∧
    run_account_ops (Addr 1) absorbed_ops
      {[ 1%positive := fresh_account 1001 (cstr "Alice") ]}
      = Some ([0; 0; 0; 0], h') ∧
    h' !! 1%positive = Some a ∧
    (length absorbed_ops ≤ 10)%nat ∧
    recorded a = txn_of_op <$> absorbed_ops ∧
    balance a = Double.of_Z 1 ∧
    net_of_sums (recorded a) = Double.zero ∧
    balance a ≠ net_of_sums (recorded a) ∧
    Qeq (exact_net_of_sums (recorded a)) (2 # 1) ∧
    ¬ Qeq (Double.to_Q (balance a)) (exact_net_of_sums (recorded a)).
Proof.
  pose (r := run_account_ops (Addr 1) absorbed_ops
               {[ 1%positive := fresh_account 1001 (cstr "Alice") ]}).
  destruct r as [[rs h']|] eqn:E; vm_compute in E; [|discriminate].
  injection E as <- <-.
  eexists _, _. split; [vm_compute; reflexivity|].
  split; [vm_compute; reflexivity|].
  split; [vm_compute; reflexivity|].
  split; [cbn; lia|].
  repeat split; try (vm_compute; reflexivity).
  - vm_compute. discriminate.
  - intros H. vm_compute in H. discriminate.
Qed.

(** C2 (amended: the net is the one accumulated in log order).  After
    creation and any sequence of at most 10 deposits and withdrawals on
    the account, every call returns and the balance equals the net of the
    recorded transactions accumulated from 0.0 in log order, each deposit
    added and each withdrawal subtracted in double arithmetic; when all
    the calls succeeded the recorded transactions are exactly those
    calls, in order. *)
Theorem balance_is_net_of_log num name os (h : heap) :
  (length os ≤ 10)%nat →
  ∃ l h0 rs h' a,
    createAccount true num name h = Some (Addr l, h0) ∧
    run_account_ops (Addr l) os h0 = Some (rs, h') ∧
    h' !! l = Some a ∧
    length rs = length os ∧
    balance a = net (recorded a) ∧
    (Forall (λ r, r = 0) rs →
       recorded a = txn_of_op <$> os ∧
       balance a = foldl apply_txn Double.zero (txn_of_op <$> os)).
Proof.
  intros Hlen. unfold createAccount. cbn [negb].
  set (l := fresh (dom h)).
  set (a0 := mkBankAccount _ _ _ _ _).
  destruct (run_account_ops_net os l a0 (<[l := a0]> h))
    as (rs & h' & a & Hrun & Hl & Hrs & Hnet & Hrec).
  - by rewrite lookup_insert_eq.
  - split; cbn; [lia|reflexivity].
  - cbn. unfold MAX_TRANSACTIONS. lia.
  - reflexivity.
  - exists l, (<[l := a0]> h), rs, h', a. repeat split; try done.
    + by apply Hrec.
    + rewrite Hnet. unfold net. f_equal. by apply Hrec.
Qed.

Lemma balance_is_net_of_log_witness :
  ∃ l h0 rs h' a,
    createAccount true 1001 (cstr "Alice") ∅ = Some (Addr l, h0) ∧
    run_account_ops (Addr l) absorbed_ops h0 = Some (rs, h') ∧
    h' !! l = Some a ∧
    length rs = length absorbed_ops ∧
    balance a = net (recorded a) ∧
    (Forall (λ r, r = 0) rs →
       recorded a = txn_of_op <$> absorbed_ops ∧
       balance a = foldl apply_txn Double.zero (txn_of_op <$> absorbed_ops)).
Proof.
  apply (balance_is_net_of_log 1001 (cstr "Alice") absorbed_ops ∅).
  cbn. lia.
Defined.

(** ** The bounded log *)

Lemma fresh_account_log_inv num name : log_inv (fresh_account num name).
Proof.
  split; cbn.
  - unfold MAX_TRANSACTIONS. lia.
  - reflexivity.
  - intros i. split; [|lia]. intros [t Ht].
    destruct i as [|[|[|[|[|[|[|[|[|[|i]]]]]]]]]]; discriminate.
Qed.

Lemma log_inv_set_balance b a : log_inv a → log_inv (set_balance b a).
Proof. intros [H1 H2 H3]. by split. Qed.

Lemma recorded_length a :
  log_inv a → length (recorded a) = Z.to_nat (transactionCount a).
Proof.
  intros [Hr Hlen Hw]. unfold recorded.
  assert (Hk : (Z.to_nat (transactionCount a) ≤ length (transactions a))%nat)
    by (unfold MAX_TRANSACTIONS in *; lia).
  assert (Hall : ∀ i : nat, (i < Z.to_nat (transactionCount a))%nat →
            ∃ t, transactions a !! i = Some (Some t)).
  { intros i Hi. apply Hw. lia. }
  clear Hw Hlen Hr. revert Hk Hall.
  generalize (Z.to_nat (transactionCount a)) as n.
  generalize (transactions a) as ts. clear a.
  intros ts n. revert ts. induction n as [|n IH]; intros ts Hk Hall.
  - done.
  - destruct ts as [|x ts]; [cbn in Hk; lia|].
    destruct (Hall O ltac:(lia)) as [t Ht]. cbn in Ht. injection Ht as ->.
    cbn. f_equal. apply IH.
    + cbn in Hk. lia.
    + intros i Hi. apply (Hall (S i)). lia.
Qed.

Lemma log_inv_append_txn ty amt d a :
  log_inv a →
  log_inv (append_txn ty amt d a) ∧
  recorded a `prefix_of` recorded (append_txn ty amt d a) ∧
  transactionCount a ≤ transactionCount (append_txn ty amt d a).
Proof.
  intros Hinv. pose proof (log_inv_in_bounds a Hinv) as Hb.
  destruct (Z.leb_spec MAX_TRANSACTIONS (transactionCount a)) as [Hc|Hc].
  { rewrite append_txn_full by done. split; [done|]. split; [done|lia]. }
  destruct (recorded_append_txn ty amt d a Hb Hc) as [Hrec Hn].
  split; [|split; [rewrite Hrec; by apply prefix_app_r|lia]].
  destruct Hinv as [Hr Hlen Hw]. unfold append_txn in *.
  destruct (Z.leb_spec MAX_TRANSACTIONS (transactionCount a)); [lia|].
  split; cbn [transactionCount transactions] in *.
  - lia.
  - by rewrite length_insert.
  - intros i. destruct (decide (i = Z.to_nat (transactionCount a))) as [->|Hne].
    + rewrite list_lookup_insert_eq by (unfold MAX_TRANSACTIONS in *; lia).
      split; [lia|eauto].
    + rewrite list_lookup_insert_ne by done. rewrite Hw. lia.
Qed.

Lemma logs_extended_refl (h : heap) : logs_extended h h.
Proof.
  intros l a Hl Hinv. exists a.
  split; [done|]. split; [done|]. split; [done|lia].
Qed.

Lemma logs_extended_trans (h1 h2 h3 : heap) :
  logs_extended h1 h2 → logs_extended h2 h3 → logs_extended h1 h3.
Proof.
  intros H12 H23 l a Hl Hinv.
  destruct (H12 l a Hl Hinv) as (a2 & Hl2 & Hinv2 & Hp2 & Hc2).
  destruct (H23 l a2 Hl2 Hinv2) as (a3 & Hl3 & Hinv3 & Hp3 & Hc3).
  exists a3. split; [done|]. split; [done|]. split; [by etrans|lia].
Qed.

(** Writing back an account whose log extends the one it replaces. *)
Lemma logs_extended_insert l0 a0 a0' (h : heap) :
  h !! l0 = Some a0 →
  (log_inv a0 → log_inv a0' ∧ recorded a0 `prefix_of` recorded a0' ∧
                transactionCount a0 ≤ transactionCount a0') →
  logs_extended h (<[l0 := a0']> h).
Proof.
  intros Hl0 Hstep l a Hl Hinv.
  destruct (decide (l = l0)) as [->|Hne].
  - rewrite Hl0 in Hl. injection Hl as <-.
    exists a0'. rewrite lookup_insert_eq. split; [done|]. by apply Hstep.
  - exists a. rewrite lookup_insert_ne by done.
    split; [done|]. split; [done|]. split; [done|lia].
Qed.

Lemma addTransaction_inv l ty amt d (h h' : heap) :
  addTransaction (Addr l) ty amt d h = Some (tt, h') →
  ∃ a, h !! l = Some a ∧ h' = <[l := append_txn ty amt d a]> h.
Proof.
  unfold addTransaction. unfold_m.
  destruct (h !! l) as [a|] eqn:Hl; [|done].
  intros H. exists a. split; [done|]. unfold append_txn.
  destruct (MAX_TRANSACTIONS <=? transactionCount a).
  - injection H as <-. by rewrite insert_id.
  - destruct (_ && _); [|done]. rewrite Hl in H. by injection H as <-.
Qed.

Lemma deposit_inv p amt d (h h' : heap) r :
  deposit p amt d h = Some (r, h') →
  (r = -1 ∧ h' = h) ∨
  ∃ l a, p = Addr l ∧ h !! l = Some a ∧ r = 0 ∧
         h' = <[l := deposited amt d a]> h.
Proof.
  unfold deposit. destruct (Double.leb amt Double.zero).
  { unfold ret. intros [= <- <-]. by left. }
  intros H. right.
  apply bind_Some in H as (a & h1 & Hload & H).
  apply bind_Some in H as ([] & h2 & Hstore & H).
  apply bind_Some in H as ([] & h3 & Hadd & H).
  unfold ret in H. injection H as <- <-.
  unfold load in Hload. destruct p as [|l]; [done|].
  destruct (h !! l) as [a0|] eqn:Hl; [|done]. injection Hload as <- <-.
  unfold store in Hstore. rewrite Hl in Hstore. injection Hstore as <-.
  apply addTransaction_inv in Hadd as (a1 & Hl1 & ->).
  rewrite lookup_insert_eq in Hl1. injection Hl1 as <-.
  exists l, a0. by rewrite insert_insert_eq.
Qed.

Lemma withdraw_inv p amt d (h h' : heap) r :
  withdraw p amt d h = Some (r, h') →
  (r = -1 ∧ h' = h) ∨
  ∃ l a, p = Addr l ∧ h !! l = Some a ∧ r = 0 ∧
         h' = <[l := withdrawn amt d a]> h.
Proof.
  unfold withdraw. destruct (Double.leb amt Double.zero).
  { unfold ret. intros [= <- <-]. by left. }
  intros H.
  apply bind_Some in H as (a & h1 & Hload & H).
  unfold load in Hload. destruct p as [|l]; [done|].
  destruct (h !! l) as [a0|] eqn:Hl; [|done]. injection Hload as <- <-.
  destruct (Double.ltb (balance a0) amt).
  { unfold ret in H. injection H as <- <-. by left. }
  right.
  apply bind_Some in H as ([] & h2 & Hstore & H).
  apply bind_Some in H as ([] & h3 & Hadd & H).
  unfold ret in H. injection H as <- <-.
  unfold store in Hstore. rewrite Hl in Hstore. injection Hstore as <-.
  apply addTransaction_inv in Hadd as (a1 & Hl1 & ->).
  rewrite lookup_insert_eq in Hl1. injection Hl1 as <-.
  exists l, a0. by rewrite insert_insert_eq.
Qed.

Lemma deposit_logs_extended p amt d (h h' : heap) r :
  deposit p amt d h = Some (r, h') → logs_extended h h'.
Proof.
  intros H. apply deposit_inv in H as [[_ ->]|(l & a & _ & Hl & _ & ->)].
  - apply logs_extended_refl.
  - apply (logs_extended_insert l a); [done|]. intros Hinv.
    apply (log_inv_append_txn DEPOSIT amt d
             (set_balance (Double.add (balance a) amt) a)).
    by apply log_inv_set_balance.
Qed.

Lemma withdraw_logs_extended p amt d (h h' : heap) r :
  withdraw p amt d h = Some (r, h') → logs_extended h h'.
Proof.
  intros H. apply withdraw_inv in H as [[_ ->]|(l & a & _ & Hl & _ & ->)].
  - apply logs_extended_refl.
  - apply (logs_extended_insert l a); [done|]. intros Hinv.
    apply (log_inv_append_txn WITHDRAWAL amt d
             (set_balance (Double.sub (balance a) amt) a)).
    by apply log_inv_set_balance.
Qed.

Lemma transfer_logs_extended accounts total fromAccNum toAccNum amt
    (h h' : heap) u :
  transfer accounts total fromAccNum toAccNum amt h = Some (u, h') →
  logs_extended h h'.
Proof.
  unfold transfer. intros H.
  apply bind_Some in H as (pf & h1 & Hf & H).
  apply findAccount_loop_heap in Hf as ->.
  apply bind_Some in H as (pt & h2 & Ht & H).
  apply findAccount_loop_heap in Ht as ->.
  destruct (is_null pf || is_null pt).
  { unfold ret in H. injection H as _ <-. apply logs_extended_refl. }
  apply bind_Some in H as (r & h3 & Hw & H).
  apply withdraw_logs_extended in Hw.
  destruct (r =? 0).
  - apply bind_Some in H as (r' & h4 & Hd & H).
    apply deposit_logs_extended in Hd.
    unfold ret in H. injection H as _ <-. by eapply logs_extended_trans.
  - unfold ret in H. by injection H as _ <-.
Qed.

Lemma run_op_logs_extended o (h h' : heap) u :
  run_op o h = Some (u, h') → logs_extended h h'.
Proof.
  destruct o as [p amt d|p amt d|accounts total f t amt]; cbn [run_op].
  - intros H. apply bind_Some in H as (r & h1 & Hd & H).
    unfold ret in H. injection H as _ <-. by eapply deposit_logs_extended.
  - intros H. apply bind_Some in H as (r & h1 & Hw & H).
    unfold ret in H. injection H as _ <-. by eapply withdraw_logs_extended.
  - apply transfer_logs_extended.
Qed.

Lemma run_ops_logs_extended os : ∀ (h h' : heap) u,
  run_ops os h = Some (u, h') → logs_extended h h'.
Proof.
  induction os as [|o os IH]; intros h h' u; cbn [run_ops].
  - unfold ret. intros [= _ <-]. apply logs_extended_refl.
  - intros H. apply bind_Some in H as (u1 & h1 & Ho & H).
    eapply logs_extended_trans.
    + by eapply run_op_logs_extended.
    + by eapply IH.
Qed.

Lemma run_ops_app os1 os2 (h h' : heap) u :
  run_ops (os1 ++ os2) h = Some (u, h') →
  ∃ h1, run_ops os1 h = Some (tt, h1) ∧ run_ops os2 h1 = Some (u, h').
Proof.
  revert h. induction os1 as [|o os1 IH]; intros h; cbn [app run_ops].
  - intros H. by exists h.
  - intros H. apply bind_Some in H as (u1 & h1 & Ho & H).
    apply IH in H as (h2 & H1 & H2). exists h2. split; [|done].
    unfold bind. by rewrite Ho.
Qed.

(** *** Runs without undefined behaviour *)

Lemma same_accounts_refl (h : heap) : same_accounts h h.
Proof. by intros l. Qed.

Lemma same_accounts_trans (h1 h2 h3 : heap) :
  same_accounts h1 h2 → same_accounts h2 h3 → same_accounts h1 h3.
Proof. intros H12 H23 l. etrans; [apply H23|apply H12]. Qed.

Lemma same_accounts_insert l a a' (h : heap) :
  h !! l = Some a → same_accounts h (<[l := a']> h).
Proof.
  intros Hl l'. destruct (decide (l' = l)) as [->|Hne].
  - rewrite lookup_insert_eq, Hl. split; eauto.
  - by rewrite lookup_insert_ne.
Qed.

Lemma heap_ok_insert l a' (h : heap) :
  heap_ok h → in_bounds a' → heap_ok (<[l := a']> h).
Proof.
  intros Hok Hb l' a0. destruct (decide (l' = l)) as [->|Hne].
  - rewrite lookup_insert_eq. by intros [= <-].
  - rewrite lookup_insert_ne by done. apply Hok.
Qed.

Lemma registry_ok_same accounts total (h h' : heap) :
  same_accounts h h' → registry_ok h accounts total →
  registry_ok h' accounts total.
Proof.
  intros Hsame [Hlen Hlive]. split; [done|]. intros i p Hi Hp.
  destruct (Hlive i p Hi Hp) as (l & a & -> & Hl).
  destruct (proj2 (Hsame l) (mk_is_Some _ _ Hl)) as [a' Hl']. by exists l, a'.
Qed.

Lemma op_ok_same o (h h' : heap) : same_accounts h h' → op_ok h o → op_ok h' o.
Proof.
  intros Hsame. destruct o as [p ? ?|p ? ?|accounts total ? ? ?]; cbn.
  - intros (l & -> & Hl). exists l. split; [done|]. by apply Hsame.
  - intros (l & -> & Hl). exists l. split; [done|]. by apply Hsame.
  - by apply registry_ok_same.
Qed.

Lemma deposit_defined p amt d (h : heap) :
  heap_ok h → live h p →
  ∃ r h', deposit p amt d h = Some (r, h') ∧ heap_ok h' ∧ same_accounts h h'.
Proof.
  intros Hok (l & -> & [a Hl]).
  destruct (Double.leb amt Double.zero) eqn:Hv.
  - exists (-1), h. rewrite deposit_rejected by done.
    split; [done|]. split; [done|apply same_accounts_refl].
  - exists 0, (<[l := deposited amt d a]> h).
    rewrite (deposit_accepted l a) by eauto using in_bounds_write_ok.
    split; [done|]. split.
    + apply heap_ok_insert; [done|]. apply in_bounds_deposited. by eapply Hok.
    + by eapply same_accounts_insert.
Qed.

Lemma withdraw_defined p amt d (h : heap) :
  heap_ok h → live h p →
  ∃ r h', withdraw p amt d h = Some (r, h') ∧ heap_ok h' ∧ same_accounts h h'.
Proof.
  intros Hok (l & -> & [a Hl]).
  destruct (Double.leb amt Double.zero) eqn:Hv.
  { exists (-1), h. rewrite withdraw_rejected_amount by done.
    split; [done|]. split; [done|apply same_accounts_refl]. }
  destruct (Double.ltb (balance a) amt) eqn:Hs.
  { exists (-1), h. rewrite (withdraw_rejected_balance l a) by done.
    split; [done|]. split; [done|apply same_accounts_refl]. }
  exists 0, (<[l := withdrawn amt d a]> h).
  rewrite (withdraw_accepted l a) by eauto using in_bounds_write_ok.
  split; [done|]. split.
  - apply heap_ok_insert; [done|]. apply in_bounds_withdrawn. by eapply Hok.
  - by eapply same_accounts_insert.
Qed.

(** What a lookup on a scannable registry returns is NULL or live. *)
Lemma findAccount_live accounts total num (h : heap) :
  registry_ok h accounts total →
  ∃ p, findAccount accounts total num h = Some (p, h) ∧ (p = NULL ∨ live h p).
Proof.
  intros Hok.
  destruct (findAccount_spec accounts total num h Hok)
    as (p & Hrun & [[-> _]|(k & Hk & Hp & _)]).
  - exists NULL. by split; [|left].
  - exists p. split; [done|]. right.
    destruct Hok as [_ Hlive]. destruct (Hlive k p Hk Hp) as (l & a & -> & Hl).
    exists l. by split; [|exists a].
Qed.

Lemma transfer_defined accounts total fromAccNum toAccNum amt (h : heap) :
  heap_ok h → registry_ok h accounts total →
  ∃ h', transfer accounts total fromAccNum toAccNum amt h = Some (tt, h') ∧
        heap_ok h' ∧ same_accounts h h'.
Proof.
  intros Hok Hreg. unfold transfer.
  destruct (findAccount_live accounts total fromAccNum h Hreg) as (pf & Hf & Hpf).
  destruct (findAccount_live accounts total toAccNum h Hreg) as (pt & Ht & Hpt).
  unfold bind at 1. rewrite Hf. unfold bind at 1. rewrite Ht.
  destruct Hpf as [->|Hpf].
  { exists h. split; [done|]. split; [done|apply same_accounts_refl]. }
  destruct Hpt as [->|Hpt].
  { exists h. rewrite orb_true_r.
    split; [done|]. split; [done|apply same_accounts_refl]. }
  assert (is_null pf || is_null pt = false) as ->.
  { destruct Hpf as (? & -> & _), Hpt as (? & -> & _). done. }
  destruct (withdraw_defined pf amt (cstr "Transfer to") h Hok Hpf)
    as (r & h1 & Hw & Hok1 & Hsame1).
  unfold bind at 1. rewrite Hw.
  destruct (r =? 0).
  - assert (Hpt1 : live h1 pt).
    { destruct Hpt as (l & -> & Hl). exists l. split; [done|]. by apply Hsame1. }
    destruct (deposit_defined pt amt (cstr "Transfer from") h1 Hok1 Hpt1)
      as (r' & h2 & Hd & Hok2 & Hsame2).
    exists h2. unfold bind. rewrite Hd.
    split; [done|]. split; [done|]. by eapply same_accounts_trans.
  - by exists h1.
Qed.

Lemma run_op_defined o (h : heap) :
  heap_ok h → op_ok h o →
  ∃ h', run_op o h = Some (tt, h') ∧ heap_ok h' ∧ same_accounts h h'.
Proof.
  intros Hok Ho. destruct o as [p amt d|p amt d|accounts total f t amt];
    cbn [run_op op_ok] in *.
  - destruct (deposit_defined p amt d h Hok Ho) as (r & h' & Hd & ?).
    exists h'. unfold bind. by rewrite Hd.
  - destruct (withdraw_defined p amt d h Hok Ho) as (r & h' & Hw & ?).
    exists h'. unfold bind. by rewrite Hw.
  - by apply transfer_defined.
Qed.

(** A run of calls that go through live pointers and scannable
    registries, from a heap of well laid out structs, returns. *)
Lemma run_ops_defined os : ∀ h : heap,
  heap_ok h → Forall (op_ok h) os →
  ∃ h', run_ops os h = Some (tt, h') ∧ heap_ok h' ∧ same_accounts h h'.
Proof.
  induction os as [|o os IH]; intros h Hok Hall; cbn [run_ops].
  - exists h. split; [done|]. split; [done|apply same_accounts_refl].
  - apply Forall_cons in Hall as [Ho Hall].
    destruct (run_op_defined o h Hok Ho) as (h1 & Hrun1 & Hok1 & Hsame1).
    destruct (IH h1 Hok1) as (h' & Hrun & Hok' & Hsame').
    { eapply Forall_impl; [exact Hall|]. intros o'. by apply op_ok_same. }
    exists h'. unfold bind. rewrite Hrun1.
    split; [done|]. split; [done|]. by eapply same_accounts_trans.
Qed.

(** C10. For an account created by [createAccount], after any sequence of
    deposits, withdrawals and transfers (on any accounts and registries
    of the heap) its count is between 0 and 10, its array still has 10
    slots, the written slots are exactly those below the count, which
    hold the recorded transactions; and the log is append-only: what was
    on record at any earlier point of the sequence is a prefix of what is
    on record at the end.  Such a sequence does return whenever its calls
    go through live pointers and scannable registries. *)
Theorem log_bounded_append_only num name os (h h0 : heap) l :
  createAccount true num name h = Some (Addr l, h0) →
  (heap_ok h → Forall (op_ok h0) os →
     ∃ h', run_ops os h0 = Some (tt, h')) ∧
  ∀ h', run_ops os h0 = Some (tt, h') →
    ∃ a, h' !! l = Some a ∧
         0 ≤ transactionCount a ≤ 10 ∧
         length (transactions a) = 10%nat ∧
         (∀ i : nat, (∃ t, transactions a !! i = Some (Some t))
                     ↔ Z.of_nat i < transactionCount a) ∧
         length (recorded a) = Z.to_nat (transactionCount a) ∧
         ∀ os1 os2 h1,
           os = os1 ++ os2 → run_ops os1 h0 = Some (tt, h1) →
           ∃ a1, h1 !! l = Some a1 ∧
                 recorded a1 `prefix_of` recorded a ∧
                 transactionCount a1 ≤ transactionCount a.
Proof.
  intros Hcreate. unfold createAccount in Hcreate. cbn [negb] in Hcreate.
  injection Hcreate as <- <-.
  set (l := fresh (dom h)) in *.
  change (mkBankAccount num (strncpy name (Z.to_nat NAME_LENGTH)) Double.zero
            (replicate (Z.to_nat MAX_TRANSACTIONS) None) 0)
    with (fresh_account num name) in *.
  set (h0 := <[l := fresh_account num name]> h) in *.
  pose proof (fresh_account_log_inv num name) as Hinv0.
  split.
  { intros Hok Hall.
    destruct (run_ops_defined os h0) as (h' & Hrun & _); [|done|by exists h'].
    apply heap_ok_insert; [done|]. by apply log_inv_in_bounds. }
  intros h' Hrun.
  assert (Hl0 : h0 !! l = Some (fresh_account num name))
    by apply lookup_insert_eq.
  destruct (run_ops_logs_extended os h0 h' tt Hrun l _ Hl0 Hinv0)
    as (a & Hl & Hinv & _ & _).
  exists a. split; [done|].
  pose proof (recorded_length a Hinv) as Hreclen.
  destruct Hinv as [Hr Hlen Hw].
  split; [done|]. split; [done|]. split; [done|]. split; [done|].
  intros os1 os2 h1 -> Hrun1.
  apply run_ops_app in Hrun as (h1' & Hrun1' & Hrun2).
  rewrite Hrun1 in Hrun1'. injection Hrun1' as <-.
  destruct (run_ops_logs_extended os1 h0 h1 tt Hrun1 l _ Hl0 Hinv0)
    as (a1 & Hl1 & Hinv1 & _ & _).
  destruct (run_ops_logs_extended os2 h1 h' tt Hrun2 l a1 Hl1 Hinv1)
    as (a' & Hl' & _ & Hp & Hc).
  rewrite Hl in Hl'. injection Hl' as <-.
  by exists a1.
Qed.

Lemma log_bounded_append_only_witness :
  ∃ a, heap_after mixed_ops alice_heap !! 1%positive = Some a ∧
       0 ≤ transactionCount a ≤ 10 ∧
       length (transactions a) = 10%nat ∧
       (∀ i : nat, (∃ t, transactions a !! i = Some (Some t))
                   ↔ Z.of_nat i < transactionCount a) ∧
       length (recorded a) = Z.to_nat (transactionCount a) ∧
       ∀ os1 os2 h1,
         mixed_ops = os1 ++ os2 → run_ops os1 alice_heap = Some (tt, h1) →
         ∃ a1, h1 !! 1%positive = Some a1 ∧
               recorded a1 `prefix_of` recorded a ∧
               transactionCount a1 ≤ transactionCount a.
Proof.
  destruct (log_bounded_append_only 1001 (cstr "Alice") mixed_ops ∅
              alice_heap 1) as [_ H].
  - vm_compute. reflexivity.
  - apply H. vm_compute. reflexivity.
Defined.

(** The run of [mixed_ops] leaves four records on Alice's account: the
    deposit, the two legs of the transfer to herself, and the last
    withdrawal; the rejected withdrawal left none. *)
Example mixed_ops_log :
  (transactionCount <$> heap_after mixed_ops alice_heap !! 1%positive,
   balance <$> heap_after mixed_ops alice_heap !! 1%positive)
  = (Some 4, Some (Double.of_Z 480)).
Proof. vm_compute. reflexivity. Qed.

(** * Further properties of the code *)

(** ** [strncpy] into the fixed buffers *)

Lemma chars_app_NUL (l r : list ascii) :
  Forall (λ c, c ≠ NUL) l → chars (l ++ NUL :: r) = l.
Proof.
  unfold chars. induction 1 as [|c l Hc _ IH]; cbn.
  - done.
  - apply is_NUL_false in Hc. rewrite Hc. cbn. by rewrite IH.
Qed.

Lemma chars_no_NUL (l : list ascii) : Forall (λ c, c ≠ NUL) l → chars l = l.
Proof.
  unfold chars. induction 1 as [|c l Hc _ IH]; cbn; [done|].
  apply is_NUL_false in Hc. rewrite Hc. cbn. by rewrite IH.
Qed.

(** X1. What [strncpy] leaves in a buffer of [n] bytes (the 10-byte
    description of a record, the 5-byte holder name), read back as a C
    string: a source shorter than [n] comes back unchanged; a source of
    [n] characters or more is cut to its first [n] characters and the
    buffer holds no NUL at all, so a reader finds no terminator inside
    the buffer. *)
Theorem strncpy_read_back (src : list ascii) (n : nat) :
  ((strlen src < n)%nat →
     chars (strncpy src n) = chars src ∧
     strlen (strncpy src n) = strlen src) ∧
  ((n ≤ strlen src)%nat →
     strncpy src n = take n (chars src) ∧
     Forall (λ c, c ≠ NUL) (strncpy src n) ∧
     strlen (strncpy src n) = n).
Proof.
  rewrite strncpy_chars. split; intros Hlen.
  - rewrite take_ge by (rewrite chars_length; lia).
    destruct (n - strlen src)%nat as [|k] eqn:Hk; [lia|]. cbn [replicate].
    assert (H : chars (chars src ++ NUL :: replicate k NUL) = chars src)
      by apply chars_app_NUL, chars_visible.
    split; [done|]. by rewrite <- (chars_length (_ ++ _)), H, chars_length.
  - replace (n - strlen src)%nat with O by lia. rewrite app_nil_r.
    assert (Hv : Forall (λ c, c ≠ NUL) (take n (chars src)))
      by apply Forall_take, chars_visible.
    split; [done|]. split; [done|].
    rewrite <- chars_length, (chars_no_NUL _ Hv), length_take, chars_length.
    lia.
Qed.

(** The two descriptions [transfer] passes are longer than the buffer:
    they are stored as "Transfer t" and "Transfer f". *)
Example transfer_descriptions :
  strncpy (cstr "Transfer to") 10 = cstr "Transfer t" ∧
  strncpy (cstr "Transfer from") 10 = cstr "Transfer f".
Proof. split; reflexivity. Qed.

(** ** The ledger over runs of any length *)

Lemma recorded_deposited amt d a :
  in_bounds a →
  recorded (deposited amt d a) =
    if MAX_TRANSACTIONS <=? transactionCount a then recorded a
    else recorded a ++ [mkTransaction DEPOSIT amt (strncpy d 10)].
Proof.
  intros Hb. unfold deposited.
  destruct (Z.leb_spec MAX_TRANSACTIONS (transactionCount a)) as [Hc|Hc].
  - by rewrite append_txn_full.
  - by destruct (recorded_append_txn DEPOSIT amt d (set_balance
                   (Double.add (balance a) amt) a) Hb Hc) as [-> _].
Qed.

Lemma recorded_withdrawn amt d a :
  in_bounds a →
  recorded (withdrawn amt d a) =
    if MAX_TRANSACTIONS <=? transactionCount a then recorded a
    else recorded a ++ [mkTransaction WITHDRAWAL amt (strncpy d 10)].
Proof.
  intros Hb. unfold withdrawn.
  destruct (Z.leb_spec MAX_TRANSACTIONS (transactionCount a)) as [Hc|Hc].
  - by rewrite append_txn_full.
  - by destruct (recorded_append_txn WITHDRAWAL amt d (set_balance
                   (Double.sub (balance a) amt) a) Hb Hc) as [-> _].
Qed.

Lemma count_append_txn ty amt d a :
  transactionCount (append_txn ty amt d a) =
    if MAX_TRANSACTIONS <=? transactionCount a then transactionCount a
    else transactionCount a + 1.
Proof. unfold append_txn. by destruct (MAX_TRANSACTIONS <=? _). Qed.

Lemma ledger_of_step pre t a a' :
  ledger_of pre a → in_bounds a' →
  balance a' = apply_txn (balance a) t →
  recorded a' = (if MAX_TRANSACTIONS <=? transactionCount a then recorded a
                 else recorded a ++ [t]) →
  transactionCount a' = (if MAX_TRANSACTIONS <=? transactionCount a
                         then transactionCount a
                         else transactionCount a + 1) →
  ledger_of (pre ++ [t]) a'.
Proof.
  intros (Hb & Hbal & Hrec & Hcnt) Hb' Hbal' Hrec' Hcnt'.
  split; [done|]. split; [by rewrite net_snoc, Hbal', Hbal|].
  rewrite length_app. cbn [length]. unfold MAX_TRANSACTIONS in *.
  destruct (Z.leb_spec 10 (transactionCount a)) as [Hc|Hc].
  - assert (10 ≤ length pre)%nat by lia.
    rewrite Hrec', Hcnt', Hrec, Hcnt. split.
    + by rewrite take_app_le.
    + lia.
  - assert (length pre < 10)%nat by lia.
    rewrite Hrec', Hcnt', Hrec, Hcnt. split.
    + rewrite (take_ge pre) by lia. rewrite take_ge; [done|].
      rewrite length_app. cbn. lia.
    + lia.
Qed.

Lemma run_account_ops_ledger os : ∀ pre l a (h : heap),
  h !! l = Some a → ledger_of pre a →
  ∃ rs h' a',
    run_account_ops (Addr l) os h = Some (rs, h') ∧
    h' !! l = Some a' ∧
    length rs = length os ∧
    ledger_of (pre ++ accepted os rs) a'.
Proof.
  induction os as [|o os IH]; intros pre l a h Hl Hled.
  - exists [], h, a. cbn. rewrite app_nil_r. by do 3 (split; [done|]).
  - assert (Hstep : ∃ r a1,
              run_account_op (Addr l) o h = Some (r, <[l := a1]> h) ∧
              ledger_of (pre ++ (if r =? 0 then [txn_of_op o] else [])) a1).
    { pose proof Hled as (Hb & _).
      assert (Hkeep : ∃ r a1, Some (-1, h) = Some (r, <[l := a1]> h) ∧
                ledger_of (pre ++ (if r =? 0 then [txn_of_op o] else [])) a1).
      { exists (-1), a. rewrite insert_id by done. cbn. by rewrite app_nil_r. }
      destruct o as [amt d|amt d]; cbn [run_account_op txn_of_op].
      - destruct (Double.leb amt Double.zero) eqn:Hv.
        { by rewrite deposit_rejected. }
        exists 0, (deposited amt d a).
        rewrite (deposit_accepted l a) by (auto using in_bounds_write_ok).
        split; [done|]. cbn [Z.eqb].
        apply (ledger_of_step pre _ a); [done|by apply in_bounds_deposited| | |].
        + apply balance_deposited.
        + by apply recorded_deposited.
        + exact (count_append_txn DEPOSIT amt d (set_balance _ a)).
      - destruct (Double.leb amt Double.zero) eqn:Hv.
        { by rewrite withdraw_rejected_amount. }
        destruct (Double.ltb (balance a) amt) eqn:Hs.
        { by rewrite (withdraw_rejected_balance l a). }
        exists 0, (withdrawn amt d a).
        rewrite (withdraw_accepted l a) by (auto using in_bounds_write_ok).
        split; [done|]. cbn [Z.eqb].
        apply (ledger_of_step pre _ a); [done|by apply in_bounds_withdrawn| | |].
        + apply balance_withdrawn.
        + by apply recorded_withdrawn.
        + exact (count_append_txn WITHDRAWAL amt d (set_balance _ a)). }
    destruct Hstep as (r & a1 & Hrun1 & Hled1).
    destruct (IH (pre ++ (if r =? 0 then [txn_of_op o] else [])) l a1
                (<[l := a1]> h))
      as (rs & h' & a' & Hrun & Hl' & Hlen & Hled');
      [by rewrite lookup_insert_eq|exact Hled1|].
    exists (r :: rs), h', a'. cbn [run_account_ops].
    unfold bind at 1. rewrite Hrun1. unfold bind at 1. rewrite Hrun.
    split; [done|]. split; [done|]. split; [cbn; by rewrite Hlen|].
    cbn [accepted]. rewrite <- app_assoc in Hled'.
    by destruct (r =? 0).
Qed.

(** X2. After creation and any sequence of deposits and withdrawals on
    the account, of any length, every call returns; the balance is the
    net, accumulated in call order in double arithmetic, of all the calls
    that returned 0, while the log holds the first ten of them only and
    the count is the lesser of their number and 10.  Past the tenth
    accepted call the balance keeps moving and the log does not. *)
Theorem ledger_after_any_run num name os (h : heap) :
  ∃ l h0 rs h' a,
    createAccount true num name h = Some (Addr l, h0) ∧
    run_account_ops (Addr l) os h0 = Some (rs, h') ∧
    h' !! l = Some a ∧
    length rs = length os ∧
    balance a = net (accepted os rs) ∧
    recorded a = take 10 (accepted os rs) ∧
    transactionCount a = Z.of_nat (length (accepted os rs) `min` 10).
Proof.
  unfold createAccount. cbn [negb].
  set (l := fresh (dom h)).
  set (a0 := mkBankAccount _ _ _ _ _).
  destruct (run_account_ops_ledger os [] l a0 (<[l := a0]> h))
    as (rs & h' & a & Hrun & Hl & Hrs & _ & Hbal & Hrec & Hcnt).
  - by rewrite lookup_insert_eq.
  - split; [split; cbn; [lia|reflexivity]|]. by do 2 (split; [done|]).
  - exists l, (<[l := a0]> h), rs, h', a. by do 6 (split; [done|]).
Qed.

(** Twelve deposits of 1.0 on a fresh account: balance 12.0, ten records. *)
Example twelve_deposits_ledger :
  ∃ rs h' a,
    run_account_ops (Addr 1) twelve_deposits alice_heap = Some (rs, h') ∧
    h' !! 1%positive = Some a ∧
    balance a = Double.of_Z 12 ∧ transactionCount a = 10 ∧
    length (recorded a) = 10%nat.
Proof.
  pose (r := run_account_ops (Addr 1) twelve_deposits alice_heap).
  destruct r as [[rs h']|] eqn:E; vm_compute in E; [|discriminate].
  injection E as <- <-.
  eexists _, _, _. split; [vm_compute; reflexivity|].
  split; [vm_compute; reflexivity|]. by vm_compute.
Qed.

(** ** Edges of the two validation checks *)

Section DoubleEdges.

Import Double.

Lemma ltb_irrefl (x : double) : ltb x x = false.
Proof.
  destruct x as [[]|[]| |[] m e]; try done; unfold ltb, SFltb; cbn;
    rewrite Z.compare_refl;
    change (Pos.compare_cont Eq m m) with (Pos.compare m m);
    by rewrite Pos.compare_refl.
Qed.

Lemma sub_self_finite s m e :
  sub (S754_finite s m e) (S754_finite s m e) = zero.
Proof. unfold sub, SFsub. by rewrite Z.sub_diag. Qed.

(** A value that is not a NaN is [<= 0] or [> 0]. *)
Lemma leb_or_ltb_zero (x : double) s :
  x ≠ nan → leb x zero = true ∨ ltb (S754_zero s) x = true.
Proof.
  intros Hx. destruct x as [[]|[]| |[] m e]; try done; cbn; auto.
Qed.

Lemma add_nan_r (x : double) : add x nan = nan.
Proof. by destruct x. Qed.

(** Adding an accepted amount to a balance that is [>= 0] gives a sum
    that is [>= 0], unless the amount is a NaN. *)
Lemma add_nonneg (b a : double) :
  leb zero b = true → leb a zero = false → a ≠ nan →
  leb zero (add b a) = true.
Proof.
  intros Hb Ha Hn.
  destruct a as [[]|[]| |[] ma ea]; try done;
    destruct b as [[]|[]| |[] mb eb]; try done.
  unfold add, SFadd. cbn [cond_Zopp]. apply binary_normalize_nonneg. lia.
Qed.

End DoubleEdges.

(** X3. A NaN disables both checks.  A deposit of a NaN is accepted and
    makes the balance a NaN; and once the balance is a NaN, every
    withdrawal whose amount is not [<= 0] is accepted, whatever its size
    (the overdraft test [balance < amount] is false), and the balance
    stays a NaN. *)
Theorem nan_disables_checks l a amt d (h : heap) :
  h !! l = Some a → in_bounds a →
  (∃ a', deposit (Addr l) Double.nan d h = Some (0, <[l := a']> h) ∧
         balance a' = Double.nan) ∧
  (balance a = Double.nan → Double.leb amt Double.zero = false →
   ∃ a', withdraw (Addr l) amt d h = Some (0, <[l := a']> h) ∧
         balance a' = Double.nan).
Proof.
  intros Hl Hb. split.
  - exists (deposited Double.nan d a).
    rewrite (deposit_accepted l a) by (auto using in_bounds_write_ok).
    split; [done|]. by rewrite balance_deposited, add_nan_r.
  - intros Hnan Hv. exists (withdrawn amt d a).
    rewrite (withdraw_accepted l a); [|done|by apply in_bounds_write_ok|done|].
    + split; [done|]. by rewrite balance_withdrawn, Hnan.
    + by rewrite Hnan.
Qed.

Lemma nan_disables_checks_witness :
  ∃ a', withdraw (Addr 4) (Double.of_Z 1000000) (cstr "all") poisoned_heap
          = Some (0, <[4%positive := a']> poisoned_heap) ∧
        balance a' = Double.nan.
Proof.
  destruct (nan_disables_checks 4 poisoned (Double.of_Z 1000000) (cstr "all")
              poisoned_heap) as [_ H].
  - reflexivity.
  - split; cbn; [lia|reflexivity].
  - apply H; reflexivity.
Defined.

(** X4. A deposit that passes validation on a balance that is [>= 0]
    leaves a balance that is [>= 0], for every amount other than a NaN
    (infinities included). *)
Theorem deposit_keeps_nonneg l a amt d (h : heap) :
  h !! l = Some a → in_bounds a →
  Double.leb Double.zero (balance a) = true →
  Double.leb amt Double.zero = false → amt ≠ Double.nan →
  ∃ a', deposit (Addr l) amt d h = Some (0, <[l := a']> h) ∧
        balance a' = Double.add (balance a) amt ∧
        Double.leb Double.zero (balance a') = true.
Proof.
  intros Hl Hb Hpos Hv Hn. exists (deposited amt d a).
  rewrite (deposit_accepted l a) by (auto using in_bounds_write_ok).
  rewrite balance_deposited. split; [done|]. split; [done|].
  by apply add_nonneg.
Qed.

Lemma deposit_keeps_nonneg_witness :
  ∃ a', deposit (Addr 2) (Double.of_Z 25) (cstr "gift") bob_heap
          = Some (0, <[2%positive := a']> bob_heap) ∧
        balance a' = Double.add (balance bob) (Double.of_Z 25) ∧
        Double.leb Double.zero (balance a') = true.
Proof.
  apply (deposit_keeps_nonneg 2 bob (Double.of_Z 25) (cstr "gift") bob_heap);
    try reflexivity; [split; cbn; [lia|reflexivity]|discriminate].
Defined.

(** X5. The overdraft test is strict: withdrawing exactly the balance of
    an account whose balance is finite and positive is accepted and
    leaves the balance at +0.0. *)
Theorem withdraw_whole_balance l a m e d (h : heap) :
  h !! l = Some a → in_bounds a →
  balance a = S754_finite false m e →
  ∃ a', withdraw (Addr l) (balance a) d h = Some (0, <[l := a']> h) ∧
        balance a' = Double.zero.
Proof.
  intros Hl Hb Hbal. exists (withdrawn (balance a) d a).
  rewrite (withdraw_accepted l a);
    [|done|by apply in_bounds_write_ok|by rewrite Hbal|apply ltb_irrefl].
  split; [done|]. by rewrite balance_withdrawn, Hbal, sub_self_finite.
Qed.

Lemma withdraw_whole_balance_witness :
  ∃ a', withdraw (Addr 2) (balance bob) (cstr "close") bob_heap
          = Some (0, <[2%positive := a']> bob_heap) ∧
        balance a' = Double.zero.
Proof.
  apply (withdraw_whole_balance 2 bob 7036874417766400 (-43) (cstr "close")
           bob_heap); [reflexivity|split; cbn; [lia|reflexivity]|reflexivity].
Defined.

(** X6. From a balance of zero (as right after creation) no withdrawal
    goes through: for every amount other than a NaN, [withdraw] returns
    -1 and changes nothing. *)
Theorem withdraw_from_zero_fails l a s amt d (h : heap) :
  h !! l = Some a → balance a = S754_zero s → amt ≠ Double.nan →
  withdraw (Addr l) amt d h = Some (-1, h).
Proof.
  intros Hl Hbal Hn.
  destruct (leb_or_ltb_zero amt s Hn) as [Hv|Hs].
  - by apply withdraw_rejected_amount.
  - apply (withdraw_rejected_balance l a); [done|]. by rewrite Hbal.
Qed.

Lemma withdraw_from_zero_fails_witness :
  withdraw (Addr 1) (Double.of_Z 1) (cstr "cash") alice_heap
    = Some (-1, alice_heap).
Proof.
  apply (withdraw_from_zero_fails 1 (fresh_account 1001 (cstr "Alice")) false);
    [reflexivity|reflexivity|discriminate].
Defined.

(** X7. When both accounts are found and the withdrawal is refused (the
    amount is [<= 0], or the source balance is below it), [transfer]
    returns with the heap unchanged; being [void], it reports nothing of
    the refusal. *)
Theorem transfer_refused_no_change accounts total fromAccNum toAccNum amt
    lf lt af (h : heap) :
  findAccount accounts total fromAccNum h = Some (Addr lf, h) →
  findAccount accounts total toAccNum h = Some (Addr lt, h) →
  h !! lf = Some af →
  Double.leb amt Double.zero = true ∨ Double.ltb (balance af) amt = true →
  transfer accounts total fromAccNum toAccNum amt h = Some (tt, h).
Proof.
  intros Hf Ht Hlf Hbad.
  rewrite (transfer_found _ _ _ _ _ lf lt) by done. unfold bind.
  destruct Hbad as [Hv|Hs].
  - by rewrite withdraw_rejected_amount.
  - by rewrite (withdraw_rejected_balance lf af).
Qed.

Lemma transfer_refused_no_change_witness :
  transfer twin_registry 3 17 42 (Double.of_Z 21) twin_heap
    = Some (tt, twin_heap).
Proof.
  apply (transfer_refused_no_change twin_registry 3 17 42 (Double.of_Z 21)
           2 3 (plain_account 17 20) twin_heap); try reflexivity.
  right. reflexivity.
Defined.

(** ** More on lookup *)

Lemma findAccount_loop_hit accounts num (h : heap) k l a : ∀ n i,
  (i ≤ k < i + n)%nat →
  accounts !! k = Some (Addr l) → h !! l = Some a → accountNumber a = num →
  (∀ j : nat, (i ≤ j < k)%nat →
     ∃ lj aj, accounts !! j = Some (Addr lj) ∧ h !! lj = Some aj ∧
              accountNumber aj ≠ num) →
  findAccount_loop accounts n i num h = Some (Addr l, h).
Proof.
  induction n as [|n IH]; intros i Hk Hp Hl Hnum Hpre; [lia|].
  cbn [findAccount_loop]. destruct (decide (i = k)) as [->|Hne].
  - rewrite Hp. unfold bind, load. rewrite Hl.
    by destruct (Z.eqb_spec (accountNumber a) num).
  - destruct (Hpre i ltac:(lia)) as (lj & aj & -> & Hlj & Hnj).
    unfold bind, load. rewrite Hlj.
    destruct (Z.eqb_spec (accountNumber aj) num); [done|].
    apply IH; [lia|done|done|done|]. intros j Hj. apply Hpre. lia.
Qed.

Lemma findAccount_loop_dead accounts num (h : heap) k : ∀ n i,
  (i ≤ k < i + n)%nat → dead_entry h accounts k →
  (∀ j : nat, (i ≤ j < k)%nat →
     ∃ lj aj, accounts !! j = Some (Addr lj) ∧ h !! lj = Some aj ∧
              accountNumber aj ≠ num) →
  findAccount_loop accounts n i num h = None.
Proof.
  induction n as [|n IH]; intros i Hk Hdead Hpre; [lia|].
  cbn [findAccount_loop]. destruct (decide (i = k)) as [->|Hne].
  - unfold dead_entry in Hdead.
    destruct (accounts !! k) as [[|l]|]; [done| |done].
    unfold bind, load. by rewrite Hdead.
  - destruct (Hpre i ltac:(lia)) as (lj & aj & -> & Hlj & Hnj).
    unfold bind, load. rewrite Hlj.
    destruct (Z.eqb_spec (accountNumber aj) num); [done|].
    apply IH; [lia|done|]. intros j Hj. apply Hpre. lia.
Qed.

(** X8. [findAccount] stops at the first match and reads nothing beyond
    it: when entry [k < totalAccounts] points to a live account with the
    number, and the entries below [k] point to live accounts with other
    numbers, the result is entry [k] and the heap is untouched, whatever
    the later entries are (null, dangling) and even when [totalAccounts]
    exceeds the length of the array. *)
Theorem findAccount_stops_at_match accounts total num (h : heap) k l a :
  (k < Z.to_nat total)%nat →
  accounts !! k = Some (Addr l) → h !! l = Some a → accountNumber a = num →
  scanned_past h accounts num k →
  findAccount accounts total num h = Some (Addr l, h).
Proof.
  intros Hk Hp Hl Hnum Hpre. unfold findAccount.
  apply (findAccount_loop_hit accounts num h k l a); [lia|done|done|done|].
  intros j Hj. apply Hpre. lia.
Qed.

Lemma findAccount_stops_at_match_witness :
  findAccount holed_registry 7 17 twin_heap = Some (Addr 2, twin_heap).
Proof.
  apply (findAccount_stops_at_match holed_registry 7 17 twin_heap 0 2
           (plain_account 17 20)); try reflexivity.
  - cbn. lia.
  - intros j Hj. lia.
Defined.

(** X9. [findAccount] does not check the pointers it reads: when the
    scan reaches, before any match, an entry below [totalAccounts] that
    is null, dangling or past the end of the array, the lookup has no
    defined result. *)
Theorem findAccount_dead_entry_undefined accounts total num (h : heap) k :
  (k < Z.to_nat total)%nat → dead_entry h accounts k →
  scanned_past h accounts num k →
  findAccount accounts total num h = None.
Proof.
  intros Hk Hdead Hpre. unfold findAccount.
  apply (findAccount_loop_dead accounts num h k); [lia|done|].
  intros j Hj. apply Hpre. lia.
Qed.

Lemma findAccount_dead_entry_undefined_witness :
  findAccount holed_registry 2 42 twin_heap = None.
Proof.
  apply (findAccount_dead_entry_undefined holed_registry 2 42 twin_heap 1).
  - cbn. lia.
  - exact I.
  - intros j Hj. assert (j = O) as -> by lia.
    exists 2%positive, (plain_account 17 20).
    split; [reflexivity|]. split; [reflexivity|]. cbn. lia.
Defined.

(** ** What the operations leave alone *)

Lemma same_identity_refl (h : heap) : same_identity h h.
Proof. by intros l. Qed.

Lemma same_identity_trans (h1 h2 h3 : heap) :
  same_identity h1 h2 → same_identity h2 h3 → same_identity h1 h3.
Proof. intros H12 H23 l. by rewrite H23, H12. Qed.

Lemma same_identity_insert l a a' (h : heap) :
  h !! l = Some a →
  accountNumber a' = accountNumber a → holderName a' = holderName a →
  same_identity h (<[l := a']> h).
Proof.
  intros Hl Hn Hh l'. unfold identity_at.
  destruct (decide (l' = l)) as [->|Hne].
  - rewrite lookup_insert_eq, Hl. cbn. by rewrite Hn, Hh.
  - by rewrite lookup_insert_ne.
Qed.

Lemma identity_append_txn ty amt d a :
  accountNumber (append_txn ty amt d a) = accountNumber a ∧
  holderName (append_txn ty amt d a) = holderName a.
Proof. unfold append_txn. by destruct (MAX_TRANSACTIONS <=? _). Qed.

Lemma deposit_same_identity p amt d (h h' : heap) r :
  deposit p amt d h = Some (r, h') → same_identity h h'.
Proof.
  intros H. apply deposit_inv in H as [[_ ->]|(l & a & _ & Hl & _ & ->)].
  - apply same_identity_refl.
  - apply (same_identity_insert l a); [done| |];
      apply (identity_append_txn DEPOSIT amt d (set_balance _ a)).
Qed.

Lemma withdraw_same_identity p amt d (h h' : heap) r :
  withdraw p amt d h = Some (r, h') → same_identity h h'.
Proof.
  intros H. apply withdraw_inv in H as [[_ ->]|(l & a & _ & Hl & _ & ->)].
  - apply same_identity_refl.
  - apply (same_identity_insert l a); [done| |];
      apply (identity_append_txn WITHDRAWAL amt d (set_balance _ a)).
Qed.

Lemma transfer_same_identity accounts total fromAccNum toAccNum amt
    (h h' : heap) u :
  transfer accounts total fromAccNum toAccNum amt h = Some (u, h') →
  same_identity h h'.
Proof.
  unfold transfer. intros H.
  apply bind_Some in H as (pf & h1 & Hf & H).
  apply findAccount_loop_heap in Hf as ->.
  apply bind_Some in H as (pt & h2 & Ht & H).
  apply findAccount_loop_heap in Ht as ->.
  destruct (is_null pf || is_null pt).
  { unfold ret in H. injection H as _ <-. apply same_identity_refl. }
  apply bind_Some in H as (r & h3 & Hw & H).
  apply withdraw_same_identity in Hw.
  destruct (r =? 0).
  - apply bind_Some in H as (r' & h4 & Hd & H).
    apply deposit_same_identity in Hd.
    unfold ret in H. injection H as _ <-. by eapply same_identity_trans.
  - unfold ret in H. by injection H as _ <-.
Qed.

Lemma run_ops_same_identity os : ∀ (h h' : heap) u,
  run_ops os h = Some (u, h') → same_identity h h'.
Proof.
  induction os as [|o os IH]; intros h h' u; cbn [run_ops].
  - unfold ret. intros [= _ <-]. apply same_identity_refl.
  - intros H. apply bind_Some in H as (u1 & h1 & Ho & H).
    eapply same_identity_trans; [|by eapply IH].
    destruct o as [p amt d|p amt d|accounts total f t amt]; cbn [run_op] in Ho.
    + apply bind_Some in Ho as (r & h2 & Hd & Ho).
      unfold ret in Ho. injection Ho as _ <-. by eapply deposit_same_identity.
    + apply bind_Some in Ho as (r & h2 & Hw & Ho).
      unfold ret in Ho. injection Ho as _ <-. by eapply withdraw_same_identity.
    + by eapply transfer_same_identity.
Qed.

(** X10. No sequence of deposits, withdrawals and transfers creates or
    removes an account, or changes the number or the holder name of one:
    at every address the heap after the run holds an account exactly
    when the heap before did, with the same number and name. *)
Theorem operations_keep_identity os (h h' : heap) u :
  run_ops os h = Some (u, h') →
  ∀ l, (is_Some (h' !! l) ↔ is_Some (h !! l)) ∧
       accountNumber <$> h' !! l = accountNumber <$> h !! l ∧
       holderName <$> h' !! l = holderName <$> h !! l.
Proof.
  intros Hrun l. pose proof (run_ops_same_identity os h h' u Hrun l) as H.
  unfold identity_at in H.
  destruct (h' !! l) as [a'|], (h !! l) as [a|]; cbn in *; try done.
  injection H as -> ->. repeat split; eauto.
Qed.

Lemma operations_keep_identity_witness :
  (is_Some (heap_after mixed_ops alice_heap !! 1%positive)
     ↔ is_Some (alice_heap !! 1%positive)) ∧
  accountNumber <$> heap_after mixed_ops alice_heap !! 1%positive
    = accountNumber <$> alice_heap !! 1%positive ∧
  holderName <$> heap_after mixed_ops alice_heap !! 1%positive
    = holderName <$> alice_heap !! 1%positive.
Proof.
  apply (operations_keep_identity mixed_ops alice_heap
           (heap_after mixed_ops alice_heap) tt).
  vm_compute. reflexivity.
Defined.

Lemma findAccount_loop_same_identity accounts num (h h' : heap) :
  same_identity h h' → ∀ n i,
  fst <$> findAccount_loop accounts n i num h'
    = fst <$> findAccount_loop accounts n i num h.
Proof.
  intros Hsame. induction n as [|n IH]; intros i; cbn [findAccount_loop].
  - done.
  - destruct (accounts !! i) as [[|l]|]; [done| |done].
    unfold bind, load. specialize (Hsame l). unfold identity_at in Hsame.
    destruct (h' !! l) as [a'|], (h !! l) as [a|]; cbn in Hsame; try done.
    injection Hsame as -> _.
    destruct (accountNumber a =? num); [done|apply IH].
Qed.

(** X11. Lookups are stable under the operations: after any sequence of
    deposits, withdrawals and transfers, [findAccount] on any registry
    and number returns the pointer it returned before (or is undefined
    exactly when it was). *)
Theorem findAccount_stable_under_operations os (h h' : heap) u
    accounts total num :
  run_ops os h = Some (u, h') →
  fst <$> findAccount accounts total num h'
    = fst <$> findAccount accounts total num h.
Proof.
  intros Hrun. unfold findAccount.
  apply findAccount_loop_same_identity. by eapply run_ops_same_identity.
Qed.

Lemma findAccount_stable_under_operations_witness :
  fst <$> findAccount [Addr 1] 1 1001 (heap_after mixed_ops alice_heap)
    = fst <$> findAccount [Addr 1] 1 1001 alice_heap.
Proof.
  apply (findAccount_stable_under_operations mixed_ops alice_heap
           (heap_after mixed_ops alice_heap) tt).
  vm_compute. reflexivity.
Defined.

(** X12. Creation then lookup: when a registry that fills its array does
    not hold a number, the account [createAccount] makes for that number,
    once its pointer is appended to the array and the count raised by
    one, is what [findAccount] returns for the number. *)
Theorem create_then_find accounts total num name (h h' : heap) p :
  registry_ok h accounts total →
  0 ≤ total → Z.to_nat total = length accounts →
  absent h accounts total num →
  createAccount true num name h = Some (p, h') →
  findAccount (accounts ++ [p]) (total + 1) num h' = Some (p, h').
Proof.
  intros [_ Hlive] H0 Htot Habs Hcreate.
  unfold createAccount in Hcreate. cbn [negb] in Hcreate.
  injection Hcreate as <- <-.
  set (l := fresh (dom h)). set (a0 := mkBankAccount _ _ _ _ _).
  assert (Hfresh : h !! l = None) by apply not_elem_of_dom, is_fresh.
  unfold findAccount.
  apply (findAccount_loop_hit _ _ _ (length accounts) l a0).
  - lia.
  - by rewrite list_lookup_middle.
  - by rewrite lookup_insert_eq.
  - done.
  - intros j [_ Hj].
    destruct (lookup_lt_is_Some_2 accounts j Hj) as [pj Hpj].
    destruct (Hlive j pj ltac:(lia) Hpj) as (lj & aj & -> & Hlj).
    exists lj, aj. split; [by rewrite lookup_app_l|].
    split; [rewrite lookup_insert_ne; [done|congruence]|].
    intros Hnum. apply (Habs j ltac:(lia)).
    unfold number_at. by rewrite Hpj, Hlj, <- Hnum.
Qed.

Lemma create_then_find_witness :
  findAccount (twin_registry ++ [Addr 4]) (3 + 1) 99
      (<[4%positive := fresh_account 99 (cstr "Zed")]> twin_heap)
    = Some (Addr 4, <[4%positive := fresh_account 99 (cstr "Zed")]> twin_heap).
Proof.
  apply (create_then_find twin_registry 3 99 (cstr "Zed") twin_heap).
  - apply twin_registry_ok.
  - lia.
  - reflexivity.
  - intros i Hi. destruct i as [|[|[|i]]]; [| | |cbn in Hi; lia];
      vm_compute; discriminate.
  - vm_compute. reflexivity.
Defined.

(** ** The driver *)

Section Driver.

Variable h : heap.
Variables l0 l1 l2 : positive.
Hypothesis fresh0 : h !! l0 = None.
Hypothesis fresh1 : h !! l1 = None.
Hypothesis fresh2 : h !! l2 = None.
Hypothesis distinct01 : l0 ≠ l1.
Hypothesis distinct02 : l0 ≠ l2.
Hypothesis distinct12 : l1 ≠ l2.

Lemma with_three_lookup0 x0 x1 x2 : with_three h l0 l1 l2 x0 x1 x2 !! l0 = Some x0.
Proof.
  unfold with_three.
  by rewrite lookup_insert_ne, lookup_insert_ne, lookup_insert_eq.
Qed.

Lemma with_three_lookup1 x0 x1 x2 : with_three h l0 l1 l2 x0 x1 x2 !! l1 = Some x1.
Proof. unfold with_three. by rewrite lookup_insert_ne, lookup_insert_eq. Qed.

Lemma with_three_lookup2 x0 x1 x2 : with_three h l0 l1 l2 x0 x1 x2 !! l2 = Some x2.
Proof. unfold with_three. by rewrite lookup_insert_eq. Qed.

Lemma with_three_insert0 x0 x1 x2 y :
  <[l0 := y]> (with_three h l0 l1 l2 x0 x1 x2) = with_three h l0 l1 l2 y x1 x2.
Proof.
  unfold with_three.
  rewrite (insert_insert_ne _ l0 l2) by done.
  rewrite (insert_insert_ne _ l0 l1) by done.
  by rewrite insert_insert_eq.
Qed.

Lemma with_three_insert1 x0 x1 x2 y :
  <[l1 := y]> (with_three h l0 l1 l2 x0 x1 x2) = with_three h l0 l1 l2 x0 y x2.
Proof.
  unfold with_three.
  rewrite (insert_insert_ne _ l1 l2) by done.
  by rewrite insert_insert_eq.
Qed.

Lemma with_three_insert2 x0 x1 x2 y :
  <[l2 := y]> (with_three h l0 l1 l2 x0 x1 x2) = with_three h l0 l1 l2 x0 x1 y.
Proof. unfold with_three. by rewrite insert_insert_eq. Qed.

(** Releasing the three accounts gives back the heap they were added
    to. *)
Lemma with_three_free x0 x1 x2 :
  for_each free [Addr l0; Addr l1; Addr l2] (with_three h l0 l1 l2 x0 x1 x2)
    = Some (tt, h).
Proof.
  cbn [for_each]. unfold bind, free, ret.
  rewrite with_three_lookup0.
  rewrite lookup_delete_ne, with_three_lookup1 by done.
  rewrite !lookup_delete_ne, with_three_lookup2 by done.
  do 2 f_equal. apply map_eq. intros l. unfold with_three.
  destruct (decide (l = l2)) as [->|N2].
  { by rewrite lookup_delete_eq. }
  rewrite lookup_delete_ne by done.
  destruct (decide (l = l1)) as [->|N1].
  { by rewrite lookup_delete_eq. }
  rewrite lookup_delete_ne by done.
  destruct (decide (l = l0)) as [->|N0].
  { by rewrite lookup_delete_eq. }
  rewrite lookup_delete_ne by done.
  by rewrite !lookup_insert_ne.
Qed.

Ltac closed_write_ok :=
  intros _; split; [vm_compute; discriminate | vm_compute; lia].

Lemma scenario_run :
  scenario (Addr l0) (Addr l1) (Addr l2)
    (with_three h l0 l1 l2
       (fresh_account 1001 (cstr "Alice"))
       (fresh_account 1002 (cstr "Bob"))
       (fresh_account 1003 (cstr "Charlie")))
  = Some (tt, h).
Proof using All.
  unfold scenario.
  unfold bind at 1.
  erewrite (deposit_accepted l0);
    [|apply with_three_lookup0; done|closed_write_ok|reflexivity].
  rewrite with_three_insert0 by done.
  unfold bind at 1.
  erewrite (deposit_accepted l1);
    [|apply with_three_lookup1; done|closed_write_ok|reflexivity].
  rewrite with_three_insert1 by done.
  unfold bind at 1.
  erewrite (deposit_accepted l2);
    [|apply with_three_lookup2; done|closed_write_ok|reflexivity].
  rewrite with_three_insert2 by done.
  unfold bind at 1.
  erewrite (withdraw_accepted l1);
    [|apply with_three_lookup1; done|closed_write_ok|reflexivity|reflexivity].
  rewrite with_three_insert1 by done.
  unfold bind at 1.
  erewrite (withdraw_accepted l2);
    [|apply with_three_lookup2; done|closed_write_ok|reflexivity|reflexivity].
  rewrite with_three_insert2 by done.
  unfold bind at 1.
  erewrite (transfer_found _ _ _ _ _ l0 l2).
  2:{ unfold findAccount.
      eapply (findAccount_loop_hit _ _ _ 0%nat l0);
        [cbn; lia|reflexivity|apply with_three_lookup0; done|reflexivity|].
      intros j Hj. lia. }
  2:{ unfold findAccount.
      eapply (findAccount_loop_hit _ _ _ 2%nat l2);
        [cbn; lia|reflexivity|apply with_three_lookup2; done|reflexivity|].
      intros j Hj. destruct j as [|[|j]]; [| |lia].
      - eexists l0, _. split; [reflexivity|].
        split; [apply with_three_lookup0; done|]. vm_compute. discriminate.
      - eexists l1, _. split; [reflexivity|].
        split; [apply with_three_lookup1; done|]. vm_compute. discriminate. }
  unfold bind at 1.
  erewrite (withdraw_accepted l0);
    [|apply with_three_lookup0; done|closed_write_ok|reflexivity|reflexivity].
  rewrite with_three_insert0 by done.
  cbn [Z.eqb]. unfold bind at 1.
  erewrite (deposit_accepted l2);
    [|apply with_three_lookup2; done|closed_write_ok|reflexivity].
  rewrite with_three_insert2 by done.
  unfold ret at 1. unfold bind at 1.
  cbn [for_each]. unfold printAccountDetails, printTransactionHistory.
  unfold bind at 1 2 3 4 5 6. unfold ret at 1 2 3 4 5 6 7.
  by apply with_three_free.
Qed.

End Driver.

Lemma deposit_NULL amt d (h : heap) :
  Double.leb amt Double.zero = false → deposit NULL amt d h = None.
Proof. intros Hv. unfold deposit. by rewrite Hv. Qed.

(** A null pointer among the three makes the scenario undefined at the
    first deposit through it. *)
Lemma scenario_NULL a0 a1 a2 (h : heap) :
  a0 = NULL ∨ a1 = NULL ∨ a2 = NULL → scenario a0 a1 a2 h = None.
Proof.
  intros Hnull. unfold scenario.
  unfold bind at 1.
  destruct (deposit a0 _ _ h) as [[r0 h0]|] eqn:E0; [|done].
  destruct Hnull as [->|Hnull]; [by rewrite deposit_NULL in E0|].
  unfold bind at 1.
  destruct (deposit a1 _ _ h0) as [[r1 h1]|] eqn:E1; [|done].
  destruct Hnull as [->| ->]; [by rewrite deposit_NULL in E1|].
  unfold bind at 1. by rewrite deposit_NULL.
Qed.

Lemma fresh_after_insert (h : heap) l a :
  let l' := fresh (dom (<[l := a]> h)) in l' ≠ l ∧ h !! l' = None.
Proof.
  intros l'. pose proof (is_fresh (dom (<[l := a]> h))) as Hf.
  fold l' in Hf. apply not_elem_of_dom in Hf.
  destruct (decide (l' = l)) as [E|N].
  - rewrite E, lookup_insert_eq in Hf. done.
  - by rewrite lookup_insert_ne in Hf.
Qed.

(** X13. The driver is safe exactly when its three allocations succeed.
    From any heap, if all three [malloc] calls succeed,
    [simulateOperations] runs to its end without undefined behaviour and
    gives back the heap it started from: each of its accounts is released
    once and none is read after its release; [main] then returns 0.  If
    any allocation fails the run, and [main] with it, is undefined: the
    NULL that [createAccount] returned is passed unchecked to [deposit],
    which dereferences it. *)
Theorem simulateOperations_safe_iff_allocated m0 m1 m2 (h : heap) :
  simulateOperations m0 m1 m2 h
    = (if m0 && m1 && m2 then Some (tt, h) else None) ∧
  main m0 m1 m2 h
    = (if m0 && m1 && m2 then Some (0, h) else None).
Proof.
  assert (Hall : simulateOperations true true true h = Some (tt, h)).
  { change (simulateOperations true true true)
      with (do a0 <- createAccount true 1001 (cstr "Alice");
            do a1 <- createAccount true 1002 (cstr "Bob");
            do a2 <- createAccount true 1003 (cstr "Charlie");
            scenario a0 a1 a2).
    unfold bind, createAccount. cbn [negb].
    change (mkBankAccount 1001 _ _ _ _) with (fresh_account 1001 (cstr "Alice")).
    change (mkBankAccount 1002 _ _ _ _) with (fresh_account 1002 (cstr "Bob")).
    change (mkBankAccount 1003 _ _ _ _)
      with (fresh_account 1003 (cstr "Charlie")).
    set (l0 := fresh (dom h)).
    assert (F0 : h !! l0 = None) by apply not_elem_of_dom, is_fresh.
    set (A0 := fresh_account 1001 (cstr "Alice")).
    destruct (fresh_after_insert h l0 A0) as [N10 F1].
    set (l1 := fresh (dom (<[l0 := A0]> h))) in *.
    set (A1 := fresh_account 1002 (cstr "Bob")).
    destruct (fresh_after_insert (<[l0 := A0]> h) l1 A1) as [N21 F2].
    set (l2 := fresh (dom (<[l1 := A1]> (<[l0 := A0]> h)))) in *.
    assert (N20 : l2 ≠ l0).
    { intros E. by rewrite E, lookup_insert_eq in F2. }
    rewrite lookup_insert_ne in F2 by done.
    apply scenario_run; done. }
  assert (Hrun : simulateOperations m0 m1 m2 h
                 = (if m0 && m1 && m2 then Some (tt, h) else None)).
  { destruct m0, m1, m2; cbn [andb]; try exact Hall;
      change (simulateOperations ?x ?y ?z)
        with (do a0 <- createAccount x 1001 (cstr "Alice");
              do a1 <- createAccount y 1002 (cstr "Bob");
              do a2 <- createAccount z 1003 (cstr "Charlie");
              scenario a0 a1 a2);
      unfold bind, createAccount; cbn [negb]; apply scenario_NULL; auto. }
  split; [exact Hrun|].
  unfold main, bind. rewrite Hrun. by destruct (m0 && m1 && m2).
Qed.

(** The demo driver, from an empty heap and from one that already holds
    accounts. *)
Example simulateOperations_runs :
  simulateOperations true true true ∅ = Some (tt, ∅) ∧
  simulateOperations true true true twin_heap = Some (tt, twin_heap) ∧
  simulateOperations true false true ∅ = None ∧
  main true true true ∅ = Some (0, ∅) ∧
  main true true false ∅ = None.
Proof. repeat split; vm_compute; reflexivity. Qed.

(** ** Frame *)

(** X14. Each operation changes at most the accounts it names: after a
    [deposit] or a [withdraw] through [p] every account at another
    address is as before, and after a [transfer] so is every account
    other than the two the lookups returned. *)
Theorem operations_frame (h h' : heap) :
  (∀ p amt d r, deposit p amt d h = Some (r, h') →
     ∀ l, p ≠ Addr l → h' !! l = h !! l) ∧
  (∀ p amt d r, withdraw p amt d h = Some (r, h') →
     ∀ l, p ≠ Addr l → h' !! l = h !! l) ∧
  (∀ accounts total fromAccNum toAccNum amt u,
     transfer accounts total fromAccNum toAccNum amt h = Some (u, h') →
     ∀ l, findAccount accounts total fromAccNum h ≠ Some (Addr l, h) →
          findAccount accounts total toAccNum h ≠ Some (Addr l, h) →
          h' !! l = h !! l).
Proof.
  split; [|split].
  - intros p amt d r H l Hp.
    apply deposit_inv in H as [[_ ->]|(l0 & a & -> & _ & _ & ->)]; [done|].
    rewrite lookup_insert_ne; [done|congruence].
  - intros p amt d r H l Hp.
    apply withdraw_inv in H as [[_ ->]|(l0 & a & -> & _ & _ & ->)]; [done|].
    rewrite lookup_insert_ne; [done|congruence].
  - intros accounts total fromAccNum toAccNum amt u H l Hnf Hnt.
    unfold transfer in H.
    apply bind_Some in H as (pf & h1 & Hf & H).
    pose proof (findAccount_loop_heap _ _ _ _ _ _ _ Hf) as ->.
    apply bind_Some in H as (pt & h2 & Ht & H).
    pose proof (findAccount_loop_heap _ _ _ _ _ _ _ Ht) as ->.
    destruct (is_null pf || is_null pt).
    { unfold ret in H. by injection H as _ <-. }
    apply bind_Some in H as (r & h3 & Hw & H).
    assert (Hstep1 : h3 !! l = h !! l).
    { apply withdraw_inv in Hw as [[_ ->]|(l0 & a & -> & _ & _ & ->)]; [done|].
      rewrite lookup_insert_ne; [done|]. intros ->. by apply Hnf. }
    destruct (r =? 0).
    + apply bind_Some in H as (r' & h4 & Hd & H).
      unfold ret in H. injection H as _ <-. rewrite <- Hstep1.
      apply deposit_inv in Hd as [[_ ->]|(l0 & a & -> & _ & _ & ->)]; [done|].
      rewrite lookup_insert_ne; [done|]. intros ->. by apply Hnt.
    + unfold ret in H. by injection H as _ <-.
Qed.
